(** * caption-bot: the Express server of [server.js] and the router of [trends.js]

    A shallow embedding of the request handlers: JavaScript values as an
    inductive type, objects as finite maps, the drafts file, the uploads
    directory and the clock as explicit state, the external services
    (trends API, ffmpeg, transcription, chat completion, headless browser) as
    oracles of an environment record, exceptions as an error result. *)

From stdpp Require Import base numbers list strings gmap pretty.

Set Warnings "-register-all,-clear-no-such-hyp".

Local Open Scope Z_scope.

(** ** JavaScript strings and values *)

(** A JavaScript string is a sequence of UTF-16 code units. *)
Definition jsstring := list N.

(** The code units of an ASCII literal of the source. *)
Definition str (s : string) : jsstring :=
  Ascii.N_of_ascii <$> String.list_ascii_of_string s.

(** Values as [JSON.parse] produces them; [undefined] is the absence of a
    value, [None] in an [option jsval]. Numbers are kept as integers: the
    handlers only test them for truthiness and render them in decimal. *)
Inductive jsval :=
| VNull
| VBool (b : bool)
| VNum (z : Z)
| VStr (s : jsstring)
| VArr (l : list jsval)
| VObj (m : gmap jsstring jsval).

Abbreviation obj := (gmap jsstring jsval).

(** [Boolean(v)], the test behind [!v], [v || d] and [if (v)]. *)
Definition truthy (v : option jsval) : bool :=
  match v with
  | None | Some VNull => false
  | Some (VBool b) => b
  | Some (VNum z) => negb (z =? 0)
  | Some (VStr s) => negb (bool_decide (s = []))
  | Some (VArr _) | Some (VObj _) => true
  end.

(** [v || d] with a defined right operand. *)
Definition or_default (v : option jsval) (d : jsval) : jsval :=
  match v with
  | Some x => if truthy v then x else d
  | None => d
  end.

(** [a ?? b]: the right operand replaces [undefined] and [null] only. *)
Definition nullish (v : option jsval) : bool :=
  match v with
  | None | Some VNull => true
  | Some _ => false
  end.

Definition coalesce (a b : option jsval) : option jsval :=
  if nullish a then b else a.

(** [{ ...o, k: v }] for one key: a defined value is stored under [k]; the
    value [undefined] leaves no property in the JSON the object is sent and
    stored as. *)
Definition set_prop (k : jsstring) (v : option jsval) (o : obj) : obj :=
  match v with
  | Some x => <[k := x]> o
  | None => delete k o
  end.

(** [a.join(sep)] on strings. *)
Fixpoint join (sep : jsstring) (l : list jsstring) : jsstring :=
  match l with
  | [] => []
  | [s] => s
  | s :: l' => s ++ sep ++ join sep l'
  end.

(** [String(v)]; inside [Array.prototype.join] the elements [null] and
    [undefined] are rendered as the empty string. The rendering is the one of
    integers below 10^21 and of objects without a [toString] of their own. *)
Fixpoint to_string (v : jsval) : jsstring :=
  match v with
  | VNull => str "null"
  | VBool true => str "true"
  | VBool false => str "false"
  | VNum z => str (pretty z)
  | VStr s => s
  | VArr l =>
      join (str ",")
        (map (fun x => match x with VNull => [] | _ => to_string x end) l)
  | VObj _ => str "[object Object]"
  end.

Definition join_elem (v : jsval) : jsstring :=
  match v with VNull => [] | _ => to_string v end.

(** ** White space, [trim], and the two regular expressions of the parser *)

(** [\s] and the characters [String.prototype.trim] removes: WhiteSpace and
    LineTerminator of ECMAScript. *)
Definition is_space (c : N) : bool :=
  bool_decide (c ∈ [9; 10; 11; 12; 13; 32; 160; 5760; 8232; 8233; 8239;
                    8287; 12288; 65279]%N)
  || ((8192 <=? c)%N && (c <=? 8202)%N).

(** [\d] *)
Definition is_digit (c : N) : bool := (48 <=? c)%N && (c <=? 57)%N.

Definition LF : N := 10.
Definition CR : N := 13.
Definition DOT : N := 46.

Fixpoint drop_while (p : N -> bool) (s : jsstring) : jsstring :=
  match s with
  | c :: s' => if p c then drop_while p s' else s
  | [] => []
  end.

Fixpoint take_while (p : N -> bool) (s : jsstring) : jsstring :=
  match s with
  | c :: s' => if p c then c :: take_while p s' else []
  | [] => []
  end.

Definition trim (s : jsstring) : jsstring :=
  reverse (drop_while is_space (reverse (drop_while is_space s))).

Definition cons_first (c : N) (ls : list jsstring) : list jsstring :=
  match ls with
  | l :: ls' => (c :: l) :: ls'
  | [] => [[c]]
  end.

(** [s.split(/\r?\n/)]: a line feed ends a piece, together with the carriage
    return right before it; the empty string gives one empty piece. *)
Fixpoint split_lines (s : jsstring) : list jsstring :=
  match s with
  | [] => [[]]
  | c :: rest =>
      if bool_decide (c = LF) then [] :: split_lines rest
      else
        match rest with
        | d :: rest' =>
            if bool_decide (c = CR) && bool_decide (d = LF)
            then [] :: split_lines rest'
            else cons_first c (split_lines rest)
        | [] => [[c]]
        end
  end.

(** [line.replace(/^\d+\.\s*/, "")]: one or more digits, a dot, and the white
    space after it are removed from the start; a line that does not start so
    is left as it is. *)
Definition strip_number (line : jsstring) : jsstring :=
  match take_while is_digit line, drop_while is_digit line with
  | _ :: _, c :: rest =>
      if bool_decide (c = DOT) then drop_while is_space rest else line
  | _, _ => line
  end.

(** ** [Date.prototype.toISOString] *)

Definition pad (w : nat) (z : Z) : string :=
  let d := pretty z in
  String.string_of_list_ascii (replicate (w - String.length d) (Ascii.ascii_of_N 48))
    +:+ d.

(** Civil date of a day number counted from 1970-01-01. *)
Definition civil_of_days (days : Z) : Z * Z * Z :=
  let z := days + 719468 in
  let era := z `div` 146097 in
  let doe := z - era * 146097 in
  let yoe := (doe - doe `div` 1460 + doe `div` 36524 - doe `div` 146096)
               `div` 365 in
  let doy := doe - (365 * yoe + yoe `div` 4 - yoe `div` 100) in
  let mp := (5 * doy + 2) `div` 153 in
  let d := doy - (153 * mp + 2) `div` 5 + 1 in
  let m := if mp <? 10 then mp + 3 else mp - 9 in
  let y := yoe + era * 400 in
  (if m <=? 2 then y + 1 else y, m, d).

Definition toISOString (t : Z) : jsstring :=
  let '(y, m, d) := civil_of_days (t `div` 86400000) in
  let year :=
    if (0 <=? y) && (y <=? 9999) then pad 4 y
    else (if y <? 0 then "-" else "+") +:+ pad 6 (Z.abs y) in
  str (year +:+ "-" +:+ pad 2 m +:+ "-" +:+ pad 2 d +:+ "T"
       +:+ pad 2 ((t `div` 3600000) `mod` 24) +:+ ":"
       +:+ pad 2 ((t `div` 60000) `mod` 60) +:+ ":"
       +:+ pad 2 ((t `div` 1000) `mod` 60) +:+ "."
       +:+ pad 3 (t `mod` 1000) +:+ "Z").

(** ** Exceptions, requests and responses *)

(** The result of code that may throw; the payload is [err.message]. The
    messages of errors raised by the runtime and by libraries are theirs; the
    handlers only log them or pass them on as [detail]. *)
Inductive exc (A : Type) :=
| Ok (a : A)
| Throw (msg : jsstring).
Arguments Ok {A} a.
Arguments Throw {A} msg.

#[global] Instance exc_ret : MRet exc := fun A a => Ok a.

#[global] Instance exc_bind : MBind exc := fun A B f x =>
  match x with
  | Ok a => f a
  | Throw m => Throw m
  end.

(** [l.map(f)] with a callback that may throw *)
Fixpoint exc_map {A B} (f : A -> exc B) (l : list A) : exc (list B) :=
  match l with
  | [] => Ok []
  | a :: l' => b ← f a; bs ← exc_map f l'; Ok (b :: bs)
  end.

(** [v.k] for the property names the handlers read (none of them is an index
    or [length]): a [TypeError] on [undefined] and [null], the own property of
    an object, [undefined] on anything else. *)
Definition get_prop (v : option jsval) (k : jsstring) : exc (option jsval) :=
  match v with
  | None | Some VNull =>
      Throw (str "Cannot read properties of undefined or null")
  | Some (VObj m) => Ok (m !! k)
  | Some _ => Ok None
  end.

(** [v?.k] *)
Definition get_prop_opt (v : option jsval) (k : jsstring)
  : exc (option jsval) :=
  if nullish v then Ok None else get_prop v k.

(** An object literal; a property whose value is [undefined] is not sent. *)
Definition literal (props : list (jsstring * option jsval)) : obj :=
  foldl (fun o kv => set_prop kv.1 kv.2 o) ∅ props.

Inductive method := GET | POST | PUT | DELETE | OPTIONS.

#[global] Instance method_eq_dec : EqDecision method.
Proof. solve_decision. Defined.

(** A request after body parsing and upload handling: [req.file.path] of the
    stored upload when the form had a [video] field, and [req.body], the
    object the body parsers leave there (empty when there is no body). *)
Record request := {
  req_method : method;
  req_path : jsstring;
  req_file : option jsstring;
  req_body : obj;
}.

Inductive payload :=
| Json (v : jsval)
| Text (s : jsstring)
| SendFile (path : jsstring)
| Empty.

Record response := {
  status : nat;
  body : payload;
}.

(** [res.json(o)] and [res.status(n).json(o)] *)
Definition json (o : list (jsstring * option jsval)) : response :=
  {| status := 200; body := Json (VObj (literal o)) |}.

Definition status_json (n : nat) (o : list (jsstring * option jsval))
  : response :=
  {| status := n; body := Json (VObj (literal o)) |}.

(** The property [k] of a JSON response body. *)
Definition body_prop (r : response) (k : jsstring) : option jsval :=
  match body r with
  | Json (VObj m) => m !! k
  | _ => None
  end.

(** ** The environment and the state of the server *)

(** What a call of the third-party trends API gives: [fetch] rejects, or a
    response with its [ok] flag, status text and the result of [json()]. *)
Inductive fetch_result :=
| FetchRejects (msg : jsstring)
| FetchResponse (ok : bool) (statusText : jsstring) (parsed : exc jsval).

(** What ffmpeg does with an upload: the [end] event after the audio file is
    written, or the [error] event, with or without a partial output file. *)
Inductive ffmpeg_result :=
| FfEnd
| FfError (msg : jsstring) (partial : bool).

Record env := {
  (** [process.env] *)
  OPENAI_API_KEY : option jsstring;
  USE_PUPPETEER : option jsstring;
  (** the successive readings of the clock, in milliseconds *)
  clock : nat -> Z;
  (** the message of the error when [fs.writeFile] on the drafts file rejects *)
  write_error : option jsstring;
  (** the trends API called by [trends.js] *)
  trends_api : fetch_result;
  (** the headless-browser session: the [innerText] of the matched nodes *)
  puppeteer : exc (list jsstring);
  (** the message of the error when the request to the own port fails *)
  loopback_error : option jsstring;
  (** audio extraction, transcription ([transcription?.text]), [unlinkSync] *)
  ffmpeg : jsstring -> ffmpeg_result;
  whisper : jsstring -> exc (option jsstring);
  unlink_error : jsstring -> bool;
  (** chat completion: system message, user message, [max_tokens]; the
      result is [choices?.[0]?.message?.content] when it is a string *)
  chat : jsstring -> jsstring -> nat -> exc (option jsstring);
  (** the rate limiter has counted 200 requests from the client this minute *)
  rate_limited : bool;
  (** the files of the [public] directory, by request path *)
  public_file : jsstring -> option jsstring;
  index_html : bool;
}.

(** The drafts file: an array of draft objects, or a file that cannot be read
    or parsed. The server itself only ever writes arrays of objects. *)
Inductive file_content :=
| Unreadable
| Array (l : list obj).

Record state := {
  drafts_file : file_content;
  (** the arrays handed to [fs.writeFile], most recent first *)
  writes : list (list obj);
  (** the files of the uploads directory *)
  uploads : gset jsstring;
  (** how many times the clock was read *)
  ticks : nat;
}.

(** Stateful code that may throw. *)
Definition M (A : Type) : Type := state -> exc A * state.

#[global] Instance M_ret : MRet M := fun A a st => (Ok a, st).

#[global] Instance M_bind : MBind M := fun A B f m st =>
  match m st with
  | (Ok a, st') => f a st'
  | (Throw e, st') => (Throw e, st')
  end.

Definition throw {A} (msg : jsstring) : M A := fun st => (Throw msg, st).

Definition lift {A} (x : exc A) : M A := fun st => (x, st).

(** [try { m } catch (err) { h err }] *)
Definition try_catch {A} (m : M A) (h : jsstring -> M A) : M A :=
  fun st =>
    match m st with
    | (Ok a, st') => (Ok a, st')
    | (Throw e, st') => h e st'
    end.

(** A handler whose whole body is inside [try]/[catch]: it always responds. *)
Definition handler (m : M response) (h : jsstring -> response)
  : state -> response * state :=
  fun st =>
    match m st with
    | (Ok r, st') => (r, st')
    | (Throw e, st') => (h e, st')
    end.

(** [Date.now()] and the time value of [new Date()] *)
Definition now (e : env) : M Z :=
  fun st =>
    (Ok (clock e (ticks st)),
     {| drafts_file := drafts_file st; writes := writes st;
        uploads := uploads st; ticks := S (ticks st) |}).

(** ** [trends.js]: the router mounted at [/api] *)

(** [t => ({ hashtag: t.name, videos: t.stats?.videoCount,
              sound: t.music?.title })] *)
Definition simplify_trend (t : jsval) : exc jsval :=
  name ← get_prop (Some t) (str "name");
  stats ← get_prop (Some t) (str "stats");
  videos ← get_prop_opt stats (str "videoCount");
  music ← get_prop (Some t) (str "music");
  title ← get_prop_opt music (str "title");
  Ok (VObj (literal [(str "hashtag", name); (str "videos", videos);
                     (str "sound", title)])).

(** The body of the [try] block of [router.get("/trends")]. *)
Definition router_trends_try (e : env) : exc response :=
  match trends_api e with
  | FetchRejects msg => Throw msg
  | FetchResponse ok statusText parsed =>
      if negb ok then Throw (str "API request failed: " ++ statusText)
      else
        data ← parsed;
        trends ← get_prop (Some data) (str "trends");
        match trends with
        | Some (VArr l) =>
            ts ← exc_map simplify_trend l;
            Ok (json [(str "trends", Some (VArr ts))])
        | None | Some VNull =>
            Throw (str "Cannot read properties of undefined (reading 'map')")
        | Some _ => Throw (str "data.trends.map is not a function")
        end
  end.

(** [router.get("/trends", ...)] of trends.js; it never calls [next]. *)
Definition router_trends (e : env) : response :=
  match router_trends_try e with
  | Ok r => r
  | Throw _ => status_json 500 [(str "error", Some (VStr (str "Failed to fetch trends")))]
  end.

(** ** [server.js]: [app.get("/api/trends", ...)] *)

Definition fallback : list jsstring :=
  [str "#fyp"; str "#viral"; str "#trend"; str "#challenge"; str "#lifehack";
   str "#dance"; str "#funny"; str "#asmr"; str "#tutorial"].

Definition strings (l : list jsstring) : jsval := VArr (VStr <$> l).

Definition simulated : response :=
  json [(str "ok", Some (VBool true));
        (str "provider", Some (VStr (str "simulated")));
        (str "data", Some (strings fallback))].

(** [nodes.map(n => n.innerText && n.innerText.trim()).filter(Boolean)
          .slice(0, 40)] *)
Definition scrape_items (texts : list jsstring) : list jsstring :=
  take 40 (filter (fun s => s ≠ []) (trim <$> texts)).

Definition server_trends (e : env) : response :=
  let usePuppeteer := bool_decide (USE_PUPPETEER e = Some (str "true")) in
  if usePuppeteer then
    match puppeteer e with
    | Ok texts =>
        let items := scrape_items texts in
        if bool_decide (items ≠ []) then
          json [(str "ok", Some (VBool true));
                (str "provider", Some (VStr (str "puppeteer")));
                (str "data", Some (strings items))]
        else simulated
    | Throw _ => simulated
    end
  else simulated.

(** ** [server.js]: [app.post("/api/caption", ...)] *)

Definition set_uploads (u : gset jsstring) (st : state) : state :=
  {| drafts_file := drafts_file st; writes := writes st;
     uploads := u; ticks := ticks st |}.

(** [try { fssync.unlinkSync(p); } catch {}] *)
Definition unlink_quiet (e : env) (p : jsstring) : M unit :=
  fun st =>
    (Ok (),
     if bool_decide (p ∈ uploads st) && negb (unlink_error e p)
     then set_uploads (uploads st ∖ {[p]}) st
     else st).

(** The promise around [ffmpeg(videoPath)....save(audioPath)]. *)
Definition extract_audio (e : env) (videoPath audioPath : jsstring) : M unit :=
  fun st =>
    match ffmpeg e videoPath with
    | FfEnd => (Ok (), set_uploads ({[audioPath]} ∪ uploads st) st)
    | FfError msg partial =>
        (Throw msg,
         if partial then set_uploads ({[audioPath]} ∪ uploads st) st else st)
    end.

Definition QUOTE : N := 34.

Definition lines (l : list jsstring) : jsstring := join [LF] l.

Definition captionPrompt (contextText trendsText : jsstring) : jsstring :=
  lines [
    str "Video/transcript: " ++ contextText;
    str "Trending hashtags: " ++ trendsText;
    [];
    str "Generate 4 different TikTok caption variants:";
    str "- <= 120 characters";
    str "- Natural, human, viral tone";
    str "- Use emojis if natural";
    str "- Each caption should target a different niche/FYP:";
    str "  1. Educational/tutorial";
    str "  2. Funny/entertaining";
    str "  3. Lifestyle/relatable";
    str "  4. Challenge/trend";
    str "Return as a newline list."
  ].

Definition quoted (s : string) : jsstring := [QUOTE] ++ str s ++ [QUOTE].

Definition soundPrompt (contextText trendsText : jsstring) : jsstring :=
  lines [
    str "Transcript/context: " ++ contextText;
    str "Trending hashtags: " ++ trendsText;
    [];
    str "Suggest 3 trending TikTok sound types that would boost discoverability.";
    str "Examples: " ++ quoted "lofi chill beat" ++ str ", "
      ++ quoted "funny meme sound" ++ str ", "
      ++ quoted "dramatic transition" ++ str ".";
    str "Keep them short and catchy."
  ].

(** [content?.trim?.() || ""], then
    [.split(/\r?\n/).map((line) => line.replace(/^\d+\.\s*/, "").trim())
       .filter(Boolean).slice(0, n)] *)
Definition clean_line (line : jsstring) : jsstring := trim (strip_number line).

Definition parse_list (n : nat) (content : option jsstring) : list jsstring :=
  let raw := match content with Some s => trim s | None => [] end in
  take n (filter (fun s => s ≠ []) (clean_line <$> split_lines raw)).

Definition parse_captions := parse_list 4.
Definition parse_sounds := parse_list 3.

(** [await r.json()] on a response of this server *)
Definition response_json (r : response) : exc jsval :=
  match body r with
  | Json v => Ok v
  | _ => Throw (str "invalid json response body")
  end.

(** Step 2: the request to the own [/api/trends]; [endpoint] is the server
    answering it. *)
Definition fetch_trends (e : env) (endpoint : M response) : M jsval :=
  try_catch
    (r ← match loopback_error e with
         | Some msg => throw msg
         | None => endpoint
         end;
     j ← lift (response_json r);
     data ← lift (get_prop (Some j) (str "data"));
     mret (or_default data (VArr [])))
    (fun _ => mret (strings [str "#fyp"; str "#viral"; str "#trend";
                             str "#funny"])).

(** [trends.slice(0, 5).join(" ")] *)
Definition trends_text (trends : jsval) : exc jsstring :=
  match trends with
  | VArr l => Ok (join (str " ") (join_elem <$> take 5 l))
  | VStr _ => Throw (str "trends.slice(...).join is not a function")
  | _ => Throw (str "trends.slice is not a function")
  end.

(** Step 1: the transcript of the upload, or the idea; [inl] is the early
    return of the bad-request response. *)
Definition context_text (e : env) (req : request) : M (response + jsstring) :=
  match req_file req with
  | Some videoPath =>
      let audioPath := videoPath ++ str ".mp3" in
      extract_audio e videoPath audioPath;;
      text ← lift (whisper e audioPath);
      let contextText := default [] text in
      unlink_quiet e videoPath;;
      unlink_quiet e audioPath;;
      mret (inr contextText)
  | None =>
      let idea := req_body req !! str "idea" in
      if truthy idea then mret (inr (to_string (or_default idea (VStr []))))
      else mret (inl (status_json 400
             [(str "ok", Some (VBool false));
              (str "error", Some (VStr (str
                 "Provide video file (field 'video') or JSON { idea }")))]))
  end.

Definition caption_try (e : env) (endpoint : M response) (req : request)
  : M response :=
  if negb (truthy (VStr <$> OPENAI_API_KEY e)) then
    mret (status_json 500
            [(str "ok", Some (VBool false));
             (str "error", Some (VStr (str "OPENAI_API_KEY not set on server")))])
  else
    step1 ← context_text e req;
    match step1 with
    | inl bad_request => mret bad_request
    | inr contextText =>
        trends ← fetch_trends e endpoint;
        trendsText ← lift (trends_text trends);
        completion ← lift (chat e
          (str "You are a TikTok strategist who crafts viral captions.")
          (captionPrompt contextText trendsText) 300);
        let captions := parse_captions completion in
        soundCompletion ← lift (chat e
          (str "You recommend TikTok trending sounds.")
          (soundPrompt contextText trendsText) 150);
        let sounds := parse_sounds soundCompletion in
        mret (json [(str "ok", Some (VBool true));
                    (str "captions", Some (strings captions));
                    (str "sounds", Some (strings sounds));
                    (str "trends", Some trends)])
    end.

Definition caption (e : env) (endpoint : M response) (req : request)
  : state -> response * state :=
  handler (caption_try e endpoint req)
    (fun msg => status_json 500
       [(str "ok", Some (VBool false));
        (str "error", Some (VStr (str "Caption generation failed")));
        (str "detail", Some (VStr msg))]).

(** ** [server.js]: the drafts store *)

(** [readDrafts]: the parsed array; an error is caught and gives [[]]. *)
Definition readDrafts : M (list obj) :=
  fun st =>
    match drafts_file st with
    | Array l => (Ok l, st)
    | Unreadable => (Ok [], st)
    end.

(** [writeDrafts]: the array replaces the content of the file; a rejected
    write throws and leaves the file as it was. *)
Definition writeDrafts (e : env) (arr : list obj) : M unit :=
  fun st =>
    match write_error e with
    | None =>
        (Ok (),
         {| drafts_file := Array arr; writes := arr :: writes st;
            uploads := uploads st; ticks := ticks st |})
    | Some msg =>
        (Throw msg,
         {| drafts_file := drafts_file st; writes := arr :: writes st;
            uploads := uploads st; ticks := ticks st |})
    end.

Definition error_body (msg : string) : list (jsstring * option jsval) :=
  [(str "ok", Some (VBool false)); (str "error", Some (VStr (str msg)))].

(** [app.get("/api/drafts", ...)] *)
Definition drafts_list : state -> response * state :=
  handler
    (drafts ← readDrafts;
     mret (json [(str "ok", Some (VBool true));
                 (str "drafts", Some (VArr (VObj <$> drafts)))]))
    (fun _ => status_json 500 (error_body "Failed to read drafts")).

(** [app.post("/api/drafts", ...)] *)
Definition drafts_create (e : env) (req : request) : state -> response * state :=
  handler
    (let name := req_body req !! str "name" in
     let caption := req_body req !! str "caption" in
     let hashtags := req_body req !! str "hashtags" in
     if negb (truthy name) then
       mret (status_json 400 (error_body "Missing name"))
     else
       drafts ← readDrafts;
       t ← now e;
       let id := str "draft_" ++ str (pretty t) in
       created ← now e;
       let item := literal [(str "id", Some (VStr id));
                            (str "name", name);
                            (str "caption", Some (or_default caption (VStr [])));
                            (str "hashtags", Some (or_default hashtags (VStr [])));
                            (str "created", Some (VStr (toISOString created)))] in
       let drafts := item :: drafts in
       writeDrafts e drafts;;
       mret (json [(str "ok", Some (VBool true));
                   (str "draft", Some (VObj item))]))
    (fun _ => status_json 500 (error_body "Failed to save draft")).

(** [drafts.findIndex((d) => d.id === id)] *)
Definition has_id (id : jsstring) (d : obj) : Prop :=
  d !! str "id" = Some (VStr id).

#[global] Instance jsval_eq_dec_str (v : option jsval) (id : jsstring) :
  Decision (v = Some (VStr id)).
Proof.
  refine (match v with
          | Some (VStr s) => cast_if (decide (s = id))
          | _ => right _
          end); abstract congruence.
Defined.

#[global] Instance has_id_dec id d : Decision (has_id id d).
Proof. unfold has_id. apply _. Defined.

Definition findIndex (id : jsstring) (drafts : list obj) : option nat :=
  fst <$> list_find (has_id id) drafts.

(** [{ ...d, name: name ?? d.name, caption: caption ?? d.caption,
         hashtags: hashtags ?? d.hashtags,
         updated: new Date().toISOString() }] *)
Definition merge (patch : obj) (updated : Z) (d : obj) : obj :=
  set_prop (str "updated") (Some (VStr (toISOString updated)))
    (set_prop (str "hashtags")
       (coalesce (patch !! str "hashtags") (d !! str "hashtags"))
       (set_prop (str "caption")
          (coalesce (patch !! str "caption") (d !! str "caption"))
          (set_prop (str "name")
             (coalesce (patch !! str "name") (d !! str "name")) d))).

Definition not_found : response :=
  status_json 404 (error_body "Draft not found").

(** [app.put("/api/drafts/:id", ...)] with [req.params.id] *)
Definition drafts_update (e : env) (id : jsstring) (req : request)
  : state -> response * state :=
  handler
    (drafts ← readDrafts;
     match findIndex id drafts with
     | None => mret not_found
     | Some idx =>
         updated ← now e;
         let d := merge (req_body req) updated (default ∅ (drafts !! idx)) in
         let drafts := <[idx := d]> drafts in
         writeDrafts e drafts;;
         mret (json [(str "ok", Some (VBool true));
                     (str "draft", VObj <$> drafts !! idx)])
     end)
    (fun _ => status_json 500 (error_body "Failed to update draft")).

(** [app.delete("/api/drafts/:id", ...)] *)
Definition drafts_delete (e : env) (id : jsstring)
  : state -> response * state :=
  handler
    (drafts ← readDrafts;
     match findIndex id drafts with
     | None => mret not_found
     | Some idx =>
         let removed := drafts !! idx in
         let drafts := delete idx drafts in
         writeDrafts e drafts;;
         mret (json [(str "ok", Some (VBool true));
                     (str "deleted", VObj <$> removed)])
     end)
    (fun _ => status_json 500 (error_body "Failed to delete draft")).

(** ** The application: middleware and routes in the order of [server.js] *)

(** A layer answers the request or calls [next] ([None]). *)
Definition layer := request -> state -> option (response * state).

Fixpoint strip_prefix (p s : jsstring) : option jsstring :=
  match p, s with
  | [], _ => Some s
  | a :: p', b :: s' => if bool_decide (a = b) then strip_prefix p' s' else None
  | _ :: _, [] => None
  end.

(** [app.use(prefix, router)]: the path seen by the router, when the request
    path is the prefix or continues it after a slash. Paths are matched in
    the spelling of the source; Express also takes the other letter cases
    and a trailing slash, which are not routed here. *)
Definition mounted (prefix path : jsstring) : option jsstring :=
  match strip_prefix prefix path with
  | Some [] => Some (str "/")
  | Some (c :: rest) =>
      if bool_decide (c = 47%N) then Some (c :: rest) else None
  | None => None
  end.

(** [:id] at the end of a route: one non-empty path segment, as it is
    written in the path (Express would decode percent escapes in it). *)
Definition param (prefix path : jsstring) : option jsstring :=
  match strip_prefix prefix path with
  | Some id =>
      if bool_decide (id ≠ []) && bool_decide (47%N ∉ id) then Some id
      else None
  | None => None
  end.

Definition pass : layer := fun _ _ => None.

(** [cors()]: a preflight request is answered, any other goes on. *)
Definition cors : layer := fun req st =>
  if bool_decide (req_method req = OPTIONS)
  then Some ({| status := 204; body := Empty |}, st)
  else None.

(** [express.json()] and [express.urlencoded()] fill [req.body]; a request
    whose body they refuse is answered by them and is not a [request]
    here. *)
Definition express_json : layer := pass.
Definition express_urlencoded : layer := pass.

(** [app.use("/api", trendsRouter)] *)
Definition trendsRouter (e : env) : layer := fun req st =>
  match mounted (str "/api") (req_path req) with
  | Some inner =>
      if bool_decide (req_method req = GET)
         && bool_decide (inner = str "/trends")
      then Some (router_trends e, st)
      else None
  | None => None
  end.

Definition rateLimit (e : env) : layer := fun _ st =>
  if rate_limited e
  then Some ({| status := 429;
                body := Text (str "Too many requests, please try again later.") |},
             st)
  else None.

Definition express_static (e : env) : layer := fun req st =>
  if bool_decide (req_method req = GET) then
    match public_file e (req_path req) with
    | Some f => Some ({| status := 200; body := SendFile f |}, st)
    | None => None
    end
  else None.

(** [app.get(path, h)], [app.post(path, h)], ... on a fixed path *)
Definition route (m : method) (path : jsstring)
    (h : request -> state -> response * state) : layer := fun req st =>
  if bool_decide (req_method req = m) && bool_decide (req_path req = path)
  then Some (h req st)
  else None.

(** ... and on a path that ends in [:id] *)
Definition route_id (m : method) (prefix : jsstring)
    (h : jsstring -> request -> state -> response * state) : layer :=
  fun req st =>
    if bool_decide (req_method req = m) then
      match param prefix (req_path req) with
      | Some id => Some (h id req st)
      | None => None
      end
    else None.

Fixpoint dispatch (ls : list layer) (req : request) (st : state)
  : option (response * state) :=
  match ls with
  | [] => None
  | l :: ls' =>
      match l req st with
      | Some r => Some r
      | None => dispatch ls' req st
      end
  end.

(** The layers registered up to [app.get("/api/trends", ...)]. *)
Definition front (e : env) : list layer :=
  [cors; express_json; trendsRouter e; express_urlencoded; rateLimit e;
   express_static e;
   route GET (str "/api/trends") (fun _ st => (server_trends e, st))].

Definition method_name (m : method) : jsstring :=
  match m with
  | GET => str "GET"
  | POST => str "POST"
  | PUT => str "PUT"
  | DELETE => str "DELETE"
  | OPTIONS => str "OPTIONS"
  end.

(** The answer of Express when no layer takes the request (the text of its
    error page). *)
Definition cannot (req : request) : response :=
  {| status := 404;
     body := Text (str "Cannot " ++ method_name (req_method req) ++ str " "
                   ++ req_path req) |}.

Definition get_trends : request :=
  {| req_method := GET; req_path := str "/api/trends";
     req_file := None; req_body := ∅ |}.

(** [fetch(`http://localhost:${PORT}/api/trends`)] answered by this server. *)
Definition loopback (e : env) : M response := fun st =>
  match dispatch (front e) get_trends st with
  | Some (r, st') => (Ok r, st')
  | None => (Ok (cannot get_trends), st)
  end.

Definition auth_page : jsstring :=
  lines [
    [];
    str "    <h3>TikTok OAuth placeholder</h3>";
    str "    <p>Implement the OAuth redirect here. In production, redirect "
      ++ str "the user to your TikTok OAuth endpoint that begins the flow, "
      ++ str "then handle callback server-side.</p>";
    str "    <p><a href=" ++ quoted "/" ++ str ">Return to app</a></p>";
    str "  "
  ].

(** [app.get(/.*/, ...)] *)
Definition spa_fallback (e : env) : layer := fun req st =>
  if bool_decide (req_method req = GET) then
    Some (if index_html e
          then {| status := 200; body := SendFile (str "public/index.html") |}
          else {| status := 404;
                  body := Text (str "Index not found. Place your frontend in "
                                ++ str "the ./public directory.") |},
          st)
  else None.

Definition app (e : env) : list layer :=
  front e ++
  [route POST (str "/api/caption") (caption e (loopback e));
   route GET (str "/api/drafts") (fun _ => drafts_list);
   route POST (str "/api/drafts") (drafts_create e);
   route_id PUT (str "/api/drafts/") (drafts_update e);
   route_id DELETE (str "/api/drafts/") (fun id _ => drafts_delete e id);
   route GET (str "/auth/tiktok")
     (fun _ st => ({| status := 200; body := Text auth_page |}, st));
   spa_fallback e].

(** The server: the first layer that answers, or the final 404. *)
Definition serve (e : env) (req : request) (st : state) : response * state :=
  default (cannot req, st) (dispatch (app e) req st).

(** ** Vocabulary of the statements *)

(** The array [readDrafts] returns in a state. *)
Definition stored (st : state) : list obj :=
  match drafts_file st with
  | Array l => l
  | Unreadable => []
  end.

(** No two drafts of the array carry the same id. *)
Definition ids_unique (l : list obj) : Prop :=
  forall i j d1 d2 id,
    l !! i = Some d1 -> l !! j = Some d2 ->
    has_id id d1 -> has_id id d2 -> i = j.

(** The properties of a draft a patch can replace. *)
Definition patch_fields : list jsstring :=
  [str "name"; str "caption"; str "hashtags"].

(** An idea string is in the body. *)
Definition idea_supplied (req : request) : Prop :=
  exists s, req_body req !! str "idea" = Some (VStr s).

Definition exactly_one_supplied (req : request) : Prop :=
  (is_Some (req_file req) /\ ~ idea_supplied req)
  \/ (req_file req = None /\ idea_supplied req).

(** No white space at either end. *)
Definition trimmed (s : jsstring) : Prop :=
  (forall c, head s = Some c -> is_space c = false)
  /\ (forall c, last s = Some c -> is_space c = false).

(** [content?.trim?.() || ""] *)
Definition raw_of (content : option jsstring) : jsstring :=
  match content with Some s => trim s | None => [] end.

(** [c] is a kept entry of the list parsed from [raw]: a line of [raw] after
    the numbering is stripped and the ends are trimmed, and not empty. *)
Definition entry_of (raw : jsstring) (c : jsstring) : Prop :=
  c ≠ [] /\ trimmed c /\ (LF ∉ c)
  /\ exists line, line ∈ split_lines raw /\ c = trim (strip_number line).

(** The answers of [POST /api/caption], by the path taken through the
    handler. *)
Inductive caption_outcome (e : env) (req : request) : response -> Prop :=
| NoCredential :
    truthy (VStr <$> OPENAI_API_KEY e) = false ->
    caption_outcome e req
      (status_json 500
         [(str "ok", Some (VBool false));
          (str "error", Some (VStr (str "OPENAI_API_KEY not set on server")))])
| NoInput :
    truthy (VStr <$> OPENAI_API_KEY e) = true ->
    req_file req = None ->
    truthy (req_body req !! str "idea") = false ->
    caption_outcome e req
      (status_json 400
         [(str "ok", Some (VBool false));
          (str "error", Some (VStr (str
             "Provide video file (field 'video') or JSON { idea }")))])
| Failed (msg : jsstring) :
    truthy (VStr <$> OPENAI_API_KEY e) = true ->
    caption_outcome e req
      (status_json 500
         [(str "ok", Some (VBool false));
          (str "error", Some (VStr (str "Caption generation failed")));
          (str "detail", Some (VStr msg))])
| Served (contextText trendsText : jsstring) (trends : jsval)
    (completion soundCompletion : option jsstring) :
    truthy (VStr <$> OPENAI_API_KEY e) = true ->
    chat e (str "You are a TikTok strategist who crafts viral captions.")
      (captionPrompt contextText trendsText) 300 = Ok completion ->
    chat e (str "You recommend TikTok trending sounds.")
      (soundPrompt contextText trendsText) 150 = Ok soundCompletion ->
    caption_outcome e req
      (json [(str "ok", Some (VBool true));
             (str "captions", Some (strings (parse_captions completion)));
             (str "sounds", Some (strings (parse_sounds soundCompletion)));
             (str "trends", Some trends)]).

(** The [id] of the draft a response carries under [key]. *)
Definition draft_id (key : string) (r : response) : option jsval :=
  match body_prop r (str key) with
  | Some (VObj d) => d !! str "id"
  | _ => None
  end.

(** ** Concrete runs *)

Definition model_answer : jsstring :=
  lines [str "1. Learn this trick in 10s"; str "2. POV: you tried it";
         [CR]; str "3) my cozy routine"; str "4.   Duet this  ";
         str "5. one line too many"].

(** An environment in which the third-party trends API cannot be reached,
    scraping is off and every other service answers; [clk] is the clock and
    [transcript] the transcription service. *)
Definition env_with (clk : nat -> Z)
    (transcript : jsstring -> exc (option jsstring)) : env :=
  {| OPENAI_API_KEY := Some (str "sk-test");
     USE_PUPPETEER := None;
     clock := clk;
     write_error := None;
     trends_api :=
       FetchRejects (str "getaddrinfo ENOTFOUND api.tiktokglobaltrends.com");
     puppeteer := Throw (str "Could not find Chrome");
     loopback_error := None;
     ffmpeg := fun _ => FfEnd;
     whisper := transcript;
     unlink_error := fun _ => false;
     chat := fun _ _ _ => Ok (Some model_answer);
     rate_limited := false;
     public_file := fun _ => None;
     index_html := true |}.

Definition env0 : env :=
  env_with (fun n => 1700000000000 + Z.of_nat n)
    (fun _ => Ok (Some (str "hello world"))).

(** Every reading of the clock falls in the same millisecond. *)
Definition env_same_ms : env :=
  env_with (fun _ => 1700000000000) (fun _ => Ok (Some (str "hello world"))).

(** The transcription service rejects the request. *)
Definition env_whisper_down : env :=
  env_with (fun n => 1700000000000 + Z.of_nat n)
    (fun _ => Throw (str "Connection error.")).

Definition st0 : state :=
  {| drafts_file := Array []; writes := []; uploads := ∅; ticks := 0 |}.

Definition video : jsstring := str "uploads/1700000000000-k3j9x1a-clip.mp4".
Definition audio : jsstring := video ++ str ".mp3".

(** The state after multer has stored the upload. *)
Definition st_uploaded : state := set_uploads {[ video ]} st0.

Definition post_caption (file : option jsstring) (b : obj) : request :=
  {| req_method := POST; req_path := str "/api/caption";
     req_file := file; req_body := b |}.

Definition idea_body : obj := {[ str "idea" := VStr (str "cats") ]}.

Definition post_draft : request :=
  {| req_method := POST; req_path := str "/api/drafts"; req_file := None;
     req_body := {[ str "name" := VStr (str "Hook idea") ]} |}.

Definition put_draft (b : obj) : request :=
  {| req_method := PUT; req_path := str "/api/drafts/draft_1700000000000";
     req_file := None; req_body := b |}.

Definition first_id : jsstring := str "draft_1700000000000".

Definition delete_draft : request :=
  {| req_method := DELETE; req_path := str "/api/drafts/draft_1700000000000";
     req_file := None; req_body := ∅ |}.

Definition get_drafts : request :=
  {| req_method := GET; req_path := str "/api/drafts";
     req_file := None; req_body := ∅ |}.

(** The state after one draft was created from [st0]. *)
Definition st1 : state := (drafts_create env0 post_draft st0).2.

(** ** Further concrete runs *)

(** [fs.writeFile] on the drafts file is rejected. *)
Definition env_disk_full : env :=
  {| OPENAI_API_KEY := Some (str "sk-test");
     USE_PUPPETEER := None;
     clock := fun n => 1700000000000 + Z.of_nat n;
     write_error := Some (str "ENOSPC: no space left on device, write");
     trends_api :=
       FetchRejects (str "getaddrinfo ENOTFOUND api.tiktokglobaltrends.com");
     puppeteer := Throw (str "Could not find Chrome");
     loopback_error := None;
     ffmpeg := fun _ => FfEnd;
     whisper := fun _ => Ok (Some (str "hello world"));
     unlink_error := fun _ => false;
     chat := fun _ _ _ => Ok (Some model_answer);
     rate_limited := false;
     public_file := fun _ => None;
     index_html := true |}.

(** The client has used up its 200 requests of the minute. *)
Definition env_limited : env :=
  {| OPENAI_API_KEY := Some (str "sk-test");
     USE_PUPPETEER := None;
     clock := fun n => 1700000000000 + Z.of_nat n;
     write_error := None;
     trends_api :=
       FetchRejects (str "getaddrinfo ENOTFOUND api.tiktokglobaltrends.com");
     puppeteer := Throw (str "Could not find Chrome");
     loopback_error := None;
     ffmpeg := fun _ => FfEnd;
     whisper := fun _ => Ok (Some (str "hello world"));
     unlink_error := fun _ => false;
     chat := fun _ _ _ => Ok (Some model_answer);
     rate_limited := true;
     public_file := fun _ => None;
     index_html := true |}.

(** A drafts file that is not JSON. *)
Definition st_corrupt : state :=
  {| drafts_file := Unreadable; writes := []; uploads := ∅; ticks := 0 |}.

(** ** The upload file name and well-formed model answers *)

Definition DASH : N := 45.

(** The [filename] callback of the multer storage:
    [Date.now() + "-" + Math.random().toString(36).slice(2, 9)], a dash and
    [file.originalname]; [rnd] is the slice of the random number. *)
Definition upload_filename (t : Z) (rnd originalname : jsstring) : jsstring :=
  let unique := str (pretty t) ++ str "-" ++ rnd in
  unique ++ str "-" ++ originalname.

(** [line] carries the entry [text]: a non-empty text without white space at
    its ends and without a line feed, as it is or after a numbering of
    digits, a dot and blanks. *)
Definition written_as (line text : jsstring) : Prop :=
  text ≠ [] /\ trimmed text /\ (LF ∉ text)
  /\ ((line = text /\ forall c, head text = Some c -> is_digit c = false)
      \/ exists ds ws,
           line = ds ++ DOT :: ws ++ text /\ ds ≠ []
           /\ Forall (fun c => is_digit c = true) ds
           /\ Forall (fun c => is_space c = true /\ c ≠ LF) ws).

(** ** The entries of a completion, in the words of the specification *)

Definition blanks (s : jsstring) : Prop := Forall (fun c => is_space c = true) s.

Definition digits (s : jsstring) : Prop := Forall (fun c => is_digit c = true) s.

(** [out] is [s] without the white space at its two ends. *)
Definition trimmed_of (s out : jsstring) : Prop :=
  trimmed out /\ exists a b, s = a ++ out ++ b /\ blanks a /\ blanks b.

(** [out] is [line] without a leading numbering: one or more digits, a dot
    and the white space after it; a line that does not start with digits and
    a dot is left as it is. *)
Definition unnumbered_of (line out : jsstring) : Prop :=
  (exists ds ws,
     line = ds ++ DOT :: ws ++ out /\ ds ≠ [] /\ digits ds /\ blanks ws
     /\ forall c, head out = Some c -> is_space c = false)
  \/ (out = line
      /\ forall ds rest, ds ≠ [] -> digits ds -> line ≠ ds ++ DOT :: rest).

(** The pieces of a text between its line breaks; a line break is a line
    feed, together with the carriage return right before it when there is
    one. *)
Inductive pieces_of : jsstring -> list jsstring -> Prop :=
| pieces_last (piece : jsstring) :
    LF ∉ piece -> pieces_of piece [piece]
| pieces_lf (piece rest : jsstring) (pieces : list jsstring) :
    LF ∉ piece -> last piece ≠ Some CR -> pieces_of rest pieces ->
    pieces_of (piece ++ LF :: rest) (piece :: pieces)
| pieces_crlf (piece rest : jsstring) (pieces : list jsstring) :
    LF ∉ piece -> pieces_of rest pieces ->
    pieces_of (piece ++ CR :: LF :: rest) (piece :: pieces).

(** [out] is the list of at most [n] entries of a completion: the content,
    trimmed, is split at its line breaks, each piece loses its numbering and
    the white space at its ends, the empty ones are dropped and the first
    [n] of the others are kept, in order. *)
Definition entries_of (n : nat) (content : option jsstring)
    (out : list jsstring) : Prop :=
  exists raw pieces cleaned,
    match content with
    | Some s => trimmed_of s raw
    | None => raw = []
    end
    /\ pieces_of raw pieces
    /\ Forall2 (fun piece c =>
                  exists mid, unnumbered_of piece mid /\ trimmed_of mid c)
         pieces cleaned
    /\ out = take n (filter (fun c => c ≠ []) cleaned).

(** [req] with the body [b]. *)
Definition with_body (b : obj) (req : request) : request :=
  {| req_method := req_method req; req_path := req_path req;
     req_file := req_file req; req_body := b |}.

(** The answer of the [catch] of [POST /api/caption]. *)
Definition caption_failed (msg : jsstring) : response :=
  status_json 500
    [(str "ok", Some (VBool false));
     (str "error", Some (VStr (str "Caption generation failed")));
     (str "detail", Some (VStr msg))].

(** The requests for the routes server.js registers behind the rate
    limiter, in the spelling of the source. *)
Definition server_route (req : request) : Prop :=
  (req_method req, req_path req)
    ∈ [(POST, str "/api/caption"); (GET, str "/api/drafts");
       (POST, str "/api/drafts"); (GET, str "/auth/tiktok")]
  \/ (req_method req ∈ [PUT; DELETE]
      /\ is_Some (param (str "/api/drafts/") (req_path req))).

(** * Theorems *)

(** ** The list parser *)

Lemma drop_while_suffix (p : N -> bool) (s : jsstring) : drop_while p s `suffix_of` s.
Proof.
  induction s as [|c s IH]; simpl; [done|].
  destruct (p c); [by apply suffix_cons_r | done].
Qed.

Lemma drop_while_head (p : N -> bool) (s : jsstring) (c : N) :
  head (drop_while p s) = Some c -> p c = false.
Proof.
  induction s as [|a s IH]; simpl; [done|].
  destruct (p a) eqn:Ha; [done|]. simpl. by intros [= <-].
Qed.

Lemma suffix_last (v w : jsstring) (c : N) :
  v `suffix_of` w -> last v = Some c -> last w = Some c.
Proof.
  intros [k ->] Hc. destruct v as [|a v]; [done|].
  by rewrite last_app, Hc.
Qed.

Lemma trim_trimmed (s : jsstring) : trimmed (trim s).
Proof.
  unfold trim, trimmed. split; intros c.
  - rewrite head_reverse. intros Hc.
    eapply suffix_last in Hc; [|apply drop_while_suffix].
    rewrite last_reverse in Hc. by eapply drop_while_head.
  - rewrite last_reverse. apply drop_while_head.
Qed.

Lemma drop_while_elem (p : N -> bool) (s : jsstring) (x : N) :
  x ∈ drop_while p s -> x ∈ s.
Proof.
  intros Hx. destruct (drop_while_suffix p s) as [k Hk].
  rewrite Hk. set_solver.
Qed.

Lemma trim_elem (s : jsstring) (x : N) : x ∈ trim s -> x ∈ s.
Proof.
  unfold trim. rewrite elem_of_reverse. intros Hx.
  apply drop_while_elem in Hx. rewrite elem_of_reverse in Hx.
  by apply drop_while_elem in Hx.
Qed.

Lemma strip_number_suffix (line : jsstring) : strip_number line `suffix_of` line.
Proof.
  unfold strip_number.
  destruct (take_while is_digit line); [done|].
  destruct (drop_while is_digit line) as [|c rest] eqn:Hd; [done|].
  case_bool_decide; [|done].
  etrans; [apply drop_while_suffix|].
  etrans; [apply (suffix_cons_r rest rest c); done|].
  rewrite <-Hd. apply drop_while_suffix.
Qed.

Lemma clean_line_elem (line : jsstring) (x : N) : x ∈ clean_line line -> x ∈ line.
Proof.
  unfold clean_line. intros Hx%trim_elem.
  destruct (strip_number_suffix line) as [k Hk]. rewrite Hk. set_solver.
Qed.

Lemma cons_first_Forall (P : jsstring -> Prop) (c : N) (ls : list jsstring) :
  (forall l, P l -> P (c :: l)) -> P [c] -> Forall P ls ->
  Forall P (cons_first c ls).
Proof.
  intros Hc H1 Hls. destruct Hls as [|l ls Hl Hls]; simpl.
  - by constructor.
  - constructor; auto.
Qed.

Lemma split_lines_ind (Q : jsstring -> list jsstring -> Prop) :
  Q [] [[]] ->
  (forall rest ls, Q rest ls -> Q (LF :: rest) ([] :: ls)) ->
  (forall rest ls, Q rest ls -> Q (CR :: LF :: rest) ([] :: ls)) ->
  (forall c rest ls, c ≠ LF -> Q rest ls -> Q (c :: rest) (cons_first c ls)) ->
  forall s, Q s (split_lines s).
Proof.
  intros Hnil Hlf Hcrlf Hc s.
  cut (Q s (split_lines s) /\ forall c, Q (c :: s) (split_lines (c :: s))).
  { by intros [? _]. }
  induction s as [|a s [IH1 IH2]].
  - split; [done|]. intros c. simpl. case_bool_decide as Hcl.
    + subst. by apply Hlf.
    + by apply (Hc c [] [[]]).
  - split; [apply IH2|]. intros c.
    change (split_lines (c :: a :: s)) with
      (if bool_decide (c = LF) then [] :: split_lines (a :: s)
       else if bool_decide (c = CR) && bool_decide (a = LF)
            then [] :: split_lines s
            else cons_first c (split_lines (a :: s))).
    case_bool_decide as Hcl.
    + subst. by apply Hlf.
    + destruct (bool_decide (c = CR) && bool_decide (a = LF)) eqn:Hcr.
      * apply andb_true_iff in Hcr as [->%bool_decide_eq_true ->%bool_decide_eq_true].
        by apply Hcrlf.
      * by apply Hc.
Qed.

Lemma split_lines_no_LF (s : jsstring) : Forall (fun l => LF ∉ l) (split_lines s).
Proof.
  apply (split_lines_ind (fun _ ls => Forall (fun l => LF ∉ l) ls)).
  - repeat constructor. apply not_elem_of_nil.
  - intros _ ls Hls. constructor; [apply not_elem_of_nil | done].
  - intros _ ls Hls. constructor; [apply not_elem_of_nil | done].
  - intros c _ ls Hc Hls. apply cons_first_Forall; [| |done].
    + intros l Hl. by apply not_elem_of_cons.
    + apply not_elem_of_cons. split; [done | apply not_elem_of_nil].
Qed.

Lemma parse_list_length (n : nat) (content : option jsstring) :
  (length (parse_list n content) <= n)%nat.
Proof. unfold parse_list. rewrite length_take. lia. Qed.

Lemma parse_list_entries (n : nat) (content : option jsstring) :
  Forall (entry_of (raw_of content)) (parse_list n content).
Proof.
  unfold parse_list. fold (raw_of content).
  apply Forall_take, Forall_forall. intros c Hc.
  apply list_elem_of_filter in Hc as [Hne Hc].
  apply list_elem_of_fmap in Hc as (line & -> & Hline).
  split; [done|]. split; [apply trim_trimmed|]. split.
  - intros HLF%clean_line_elem.
    pose proof (split_lines_no_LF (raw_of content)) as Hall.
    rewrite Forall_forall in Hall. by apply (Hall line).
  - by exists line.
Qed.

Lemma take_drop_while (p : N -> bool) (s : jsstring) :
  s = take_while p s ++ drop_while p s
  /\ Forall (fun c => p c = true) (take_while p s).
Proof.
  induction s as [|c s [IH1 IH2]]; simpl; [split; [done|constructor]|].
  destruct (p c) eqn:Hc; [|split; [done|constructor]].
  split; [simpl; congruence | by constructor].
Qed.

Lemma take_while_app (p : N -> bool) (ds rest : jsstring) :
  Forall (fun c => p c = true) ds ->
  (forall c, head rest = Some c -> p c = false) ->
  take_while p (ds ++ rest) = ds /\ drop_while p (ds ++ rest) = rest.
Proof.
  intros Hds Hrest. induction Hds as [|c ds Hc _ [IH1 IH2]]; simpl.
  - destruct rest as [|c rest]; [done|]. simpl. by rewrite (Hrest c).
  - rewrite Hc. by rewrite IH1, IH2.
Qed.

(** The numbering the parser strips: digits, a dot, white space. *)
Lemma strip_number_numbered (ds ws rest : jsstring) :
  ds ≠ [] ->
  Forall (fun c => is_digit c = true) ds ->
  Forall (fun c => is_space c = true) ws ->
  (forall c, head rest = Some c -> is_space c = false) ->
  strip_number (ds ++ DOT :: ws ++ rest) = rest.
Proof.
  intros Hne Hds Hws Hrest. unfold strip_number.
  destruct (take_while_app is_digit ds (DOT :: ws ++ rest) Hds) as [-> ->].
  { by intros c [= <-]. }
  destruct ds as [|d ds]; [done|]. rewrite bool_decide_eq_true_2 by done.
  by destruct (take_while_app is_space ws rest Hws Hrest) as [_ ->].
Qed.

(** A line that does not start with a digit is not changed. *)
Lemma strip_number_unnumbered (line : jsstring) :
  (forall c, head line = Some c -> is_digit c = false) ->
  strip_number line = line.
Proof.
  intros Hhead. unfold strip_number.
  destruct line as [|c line]; [done|]. simpl. by rewrite (Hhead c).
Qed.

(** [trim] removes white space from both ends and nothing else. *)
Lemma trim_decompose (s : jsstring) :
  exists a b, s = a ++ trim s ++ b
              /\ Forall (fun c => is_space c = true) a
              /\ Forall (fun c => is_space c = true) b.
Proof.
  destruct (take_drop_while is_space s) as [Hs Ha].
  destruct (take_drop_while is_space (reverse (drop_while is_space s)))
    as [Hr Hb].
  exists (take_while is_space s),
    (reverse (take_while is_space (reverse (drop_while is_space s)))).
  split; [|split; [done|by apply Forall_reverse]].
  unfold trim. rewrite <-reverse_app, <-Hr, reverse_involutive. done.
Qed.

Example split_lines_crlf :
  split_lines (str "a" ++ [CR; LF] ++ str "b" ++ [LF; LF] ++ str "c" ++ [CR])
  = [str "a"; str "b"; []; str "c" ++ [CR]].
Proof. reflexivity. Qed.

Example strip_number_cases :
  strip_number (str "12.  go") = str "go"
  /\ strip_number (str " 1. go") = str " 1. go"
  /\ strip_number (str "1) go") = str "1) go"
  /\ strip_number (str "1. 2. go") = str "2. go".
Proof. repeat split; reflexivity. Qed.

Example parse_captions_model_answer :
  parse_captions (Some model_answer)
  = [str "Learn this trick in 10s"; str "POV: you tried it";
     str "3) my cozy routine"; str "Duet this"].
Proof. vm_compute. reflexivity. Qed.

Example toISOString_epoch : toISOString 0 = str "1970-01-01T00:00:00.000Z".
Proof. vm_compute. reflexivity. Qed.

Example toISOString_2023 :
  toISOString 1700000000000 = str "2023-11-14T22:13:20.000Z".
Proof. vm_compute. reflexivity. Qed.

Example toISOString_leap_day :
  toISOString 951782400000 = str "2000-02-29T00:00:00.000Z".
Proof. vm_compute. reflexivity. Qed.

Example toISOString_before_epoch :
  toISOString (-1) = str "1969-12-31T23:59:59.999Z".
Proof. vm_compute. reflexivity. Qed.

(** ** The caption pipeline *)

(** One [await] of the handler: the next bind of the state monad. *)
Ltac bind_step :=
  unfold mbind at 1; unfold M_bind at 1; try unfold lift at 1.

Lemma context_text_inl (e : env) (req : request) (st st' : state)
    (r : response) :
  context_text e req st = (Ok (inl r), st') ->
  r = status_json 400 [(str "ok", Some (VBool false));
        (str "error", Some (VStr (str
           "Provide video file (field 'video') or JSON { idea }")))]
  /\ st' = st /\ req_file req = None
  /\ truthy (req_body req !! str "idea") = false.
Proof.
  unfold context_text. destruct (req_file req) as [videoPath|].
  - unfold mbind, M_bind, mret, M_ret, lift, extract_audio, unlink_quiet.
    destruct (ffmpeg e videoPath); [|done].
    destruct (whisper e _); done.
  - destruct (truthy _) eqn:Hidea; unfold mret, M_ret; intros [= <- <-]; done.
Qed.

Lemma caption_outcomes (e : env) (endpoint : M response) (req : request)
    (st : state) :
  caption_outcome e req (caption e endpoint req st).1.
Proof.
  unfold caption, handler, caption_try.
  destruct (truthy (VStr <$> OPENAI_API_KEY e)) eqn:Hkey; cbn [negb].
  2:{ by constructor. }
  bind_step.
  destruct (context_text e req st) as [[[bad|contextText]|msg] st1] eqn:Hctx.
  - apply context_text_inl in Hctx as (-> & _ & Hfile & Hidea).
    by constructor.
  - bind_step.
    destruct (fetch_trends e endpoint st1) as [[trends|msg] st2];
      [|by constructor].
    bind_step. destruct (trends_text trends) as [trendsText|msg];
      [|by constructor].
    bind_step.
    destruct (chat e _ (captionPrompt _ _) _) as [completion|msg] eqn:Hc;
      [|by constructor].
    bind_step.
    destruct (chat e _ (soundPrompt _ _) _) as [soundCompletion|msg] eqn:Hs;
      [|by constructor].
    by eapply Served.
  - by constructor.
Qed.

(** ** The trends endpoint *)

Lemma exc_bind_Ok {A B} (x : exc A) (f : A -> exc B) b :
  x ≫= f = Ok b -> exists a, x = Ok a /\ f a = Ok b.
Proof. destruct x as [a|msg]; [by exists a | done]. Qed.

Lemma router_trends_try_Ok (e : env) (r : response) :
  router_trends_try e = Ok r ->
  exists ts, r = json [(str "trends", Some (VArr ts))].
Proof.
  unfold router_trends_try.
  destruct (trends_api e) as [msg|ok statusText parsed]; [done|].
  destruct (negb ok); [done|].
  intros (data & _ & (trends & _ & Hr)%exc_bind_Ok)%exc_bind_Ok.
  destruct trends as [[| | | |l|]|]; try done.
  apply exc_bind_Ok in Hr as (ts & _ & [= <-]). by exists ts.
Qed.

Lemma router_trends_cases (e : env) :
  (exists ts, router_trends e = json [(str "trends", Some (VArr ts))])
  \/ router_trends e
     = status_json 500 [(str "error", Some (VStr (str "Failed to fetch trends")))].
Proof.
  unfold router_trends.
  destruct (router_trends_try e) as [r|msg] eqn:Hr; [left|by right].
  by apply router_trends_try_Ok in Hr.
Qed.

Lemma serve_get_trends (e : env) (st : state) :
  serve e get_trends st = (router_trends e, st).
Proof. reflexivity. Qed.

Lemma server_trends_disabled (e : env) :
  USE_PUPPETEER e ≠ Some (str "true") -> server_trends e = simulated.
Proof. intros Hoff. unfold server_trends. by rewrite bool_decide_eq_false_2. Qed.

(** C1 (a defect of the code): [GET /api/trends] never reaches the handler of
    server.js, because the router of trends.js, mounted at [/api] before it,
    answers every such request and never calls [next]. The answer is the one
    of trends.js, whatever [USE_PUPPETEER] is: it has no [ok] and no
    [provider] property, and with scraping off and the trends API out of reach
    it is status 500 with [{ error: "Failed to fetch trends" }], where the
    handler of server.js would have sent the simulated list. *)
Theorem api_trends_answered_by_router :
  (forall e st, serve e get_trends st = (router_trends e, st))
  /\ (forall e, body_prop (router_trends e) (str "ok") = None
             /\ body_prop (router_trends e) (str "provider") = None
             /\ body_prop (router_trends e) (str "data") = None)
  /\ USE_PUPPETEER env0 = None
  /\ serve env0 get_trends st0
     = (status_json 500
          [(str "error", Some (VStr (str "Failed to fetch trends")))], st0)
  /\ server_trends env0 = simulated
  /\ body_prop simulated (str "data") = Some (strings fallback).
Proof.
  split; [apply serve_get_trends|]. split.
  - intros e. by destruct (router_trends_cases e) as [[ts ->]| ->].
  - repeat split; reflexivity.
Qed.

(** ** The drafts store *)

Lemma lookup_set_prop (k : jsstring) (v : option jsval) (o : obj) (j : jsstring) :
  set_prop k v o !! j = if decide (k = j) then v else o !! j.
Proof. destruct v; [apply lookup_insert | apply lookup_delete]. Qed.

Lemma readDrafts_stored (st : state) : readDrafts st = (Ok (stored st), st).
Proof. unfold readDrafts, stored. by destruct (drafts_file st). Qed.

Lemma truthy_Some (v : option jsval) : truthy v = true -> exists x, v = Some x.
Proof. destruct v; [eauto | done]. Qed.

(** C6: [create] with a missing name ([!name]: absent, null, empty or
    otherwise falsy) answers 400 [{ ok: false, error: "Missing name" }] and
    leaves the state as it was; with a name, and the write going through, it
    builds a record of exactly the properties id, name, caption, hashtags and
    created, caption and hashtags being the empty string when not given, puts
    it in front of the stored array, writes the whole array, and answers
    [{ ok: true, draft }] with that record. *)
Theorem create_prepends_record (e : env) (req : request) (st : state) :
  let name := req_body req !! str "name" in
  let caption := req_body req !! str "caption" in
  let hashtags := req_body req !! str "hashtags" in
  let r := (drafts_create e req st).1 in
  let st' := (drafts_create e req st).2 in
  if truthy name then
    match write_error e with
    | None =>
        exists item,
          r = json [(str "ok", Some (VBool true));
                    (str "draft", Some (VObj item))]
          /\ drafts_file st' = Array (item :: stored st)
          /\ writes st' = (item :: stored st) :: writes st
          /\ item !! str "id"
             = Some (VStr (str "draft_" ++ str (pretty (clock e (ticks st)))))
          /\ item !! str "name" = name
          /\ item !! str "caption"
             = Some (if truthy caption then default VNull caption else VStr [])
          /\ item !! str "hashtags"
             = Some (if truthy hashtags then default VNull hashtags else VStr [])
          /\ item !! str "created"
             = Some (VStr (toISOString (clock e (S (ticks st)))))
          /\ dom item = list_to_set [str "id"; str "name"; str "caption";
                                     str "hashtags"; str "created"]
    | Some _ =>
        r = status_json 500 (error_body "Failed to save draft")
        /\ drafts_file st' = drafts_file st
    end
  else
    drafts_create e req st = (status_json 400 (error_body "Missing name"), st).
Proof.
  cbv zeta. unfold drafts_create, handler.
  destruct (truthy (req_body req !! str "name")) eqn:Hname; [|done].
  apply truthy_Some in Hname as [name Hname]. rewrite Hname.
  cbv [mbind M_bind mret M_ret now writeDrafts negb].
  rewrite readDrafts_stored.
  destruct (write_error e) as [msg|]; cbv beta iota zeta.
  { split; reflexivity. }
  cbn [drafts_file writes uploads ticks fst snd].
  (eexists; split; [reflexivity|]).
  (split; [reflexivity|]). (split; [reflexivity|]).
  (split; [reflexivity|]). (split; [reflexivity|]).
  split.
  { unfold or_default.
    by destruct (req_body req !! str "caption") as [c|]; [destruct (truthy _)|]. }
  split.
  { unfold or_default.
    by destruct (req_body req !! str "hashtags") as [c|]; [destruct (truthy _)|]. }
  (split; [reflexivity|]).
  unfold literal. cbn [foldl set_prop fst snd]. rewrite !dom_insert_L, dom_empty_L. 
  generalize (str "id") (str "name") (str "caption") (str "hashtags")
    (str "created"). set_solver.
Qed.

Lemma findIndex_Some (id : jsstring) (l : list obj) (idx : nat) :
  findIndex id l = Some idx ->
  exists d, l !! idx = Some d /\ has_id id d
            /\ forall j y, l !! j = Some y -> (j < idx)%nat -> ~ has_id id y.
Proof.
  unfold findIndex. destruct (list_find _ l) as [[i d]|] eqn:Hf; [|done].
  intros [= <-]. exists d. by apply list_find_Some in Hf.
Qed.

Lemma findIndex_None (id : jsstring) (l : list obj) :
  findIndex id l = None <-> Forall (fun d => ~ has_id id d) l.
Proof.
  unfold findIndex. split.
  - intros Hf. apply (list_find_None (has_id id)).
    by destruct (list_find (has_id id) l).
  - intros Hf. apply (list_find_None (has_id id)) in Hf. by rewrite Hf.
Qed.

(** The three properties a patch can replace. *)
Lemma merge_lookup_field (patch : obj) (updated : Z) (d : obj) (k : jsstring) :
  k ∈ [str "name"; str "caption"; str "hashtags"] ->
  merge patch updated d !! k = coalesce (patch !! k) (d !! k).
Proof.
  intros Hk. unfold merge. rewrite !lookup_set_prop.
  repeat (apply elem_of_cons in Hk as [->|Hk]); [| | |by apply elem_of_nil in Hk];
    repeat (let Heq := fresh "Heq" in
            case_decide as Heq;
            [try (exfalso; vm_compute in Heq; congruence)|try done]); done.
Qed.

Lemma merge_lookup_updated (patch : obj) (updated : Z) (d : obj) :
  merge patch updated d !! str "updated" = Some (VStr (toISOString updated)).
Proof. unfold merge. rewrite lookup_set_prop. by case_decide. Qed.

Lemma merge_lookup_other (patch : obj) (updated : Z) (d : obj) (k : jsstring) :
  k ∉ [str "name"; str "caption"; str "hashtags"] -> k ≠ str "updated" ->
  merge patch updated d !! k = d !! k.
Proof.
  intros Hk Hu. unfold merge. rewrite !lookup_set_prop.
  apply not_elem_of_cons in Hk as [Hn Hk].
  apply not_elem_of_cons in Hk as [Hc Hk].
  apply not_elem_of_cons in Hk as [Hh _].
  repeat (case_decide; [congruence|]). done.
Qed.

(** [update] of an id that a draft at index [idx] is the first to carry, with
    a write that goes through. *)
Section update.

Context (e : env) (id : jsstring) (req : request) (st : state) (idx : nat).
Hypothesis found : findIndex id (stored st) = Some idx.
Hypothesis written : write_error e = None.

Lemma drafts_update_found :
  exists d,
    stored st !! idx = Some d /\ has_id id d
    /\ let d' := merge (req_body req) (clock e (ticks st)) d in
       drafts_update e id req st
       = (json [(str "ok", Some (VBool true)); (str "draft", Some (VObj d'))],
          {| drafts_file := Array (<[idx := d']> (stored st));
             writes := <[idx := d']> (stored st) :: writes st;
             uploads := uploads st; ticks := S (ticks st) |}).
Proof.
  destruct (findIndex_Some _ _ _ found) as (d & Hd & Hid & _).
  exists d. split; [done|]. split; [done|]. cbv zeta.
  unfold drafts_update, handler.
  cbv [mbind M_bind mret M_ret now writeDrafts].
  rewrite readDrafts_stored, found, written, Hd.
  cbn [drafts_file writes uploads ticks default].
  rewrite list_lookup_insert_eq by (by eapply lookup_lt_Some).
  reflexivity.
Qed.

(** C7: [update] of a draft that is found replaces the properties the patch
    provides and no other: a property of the three that the patch lacks keeps
    its value, every other property of the draft except [updated], [id] and
    [created] among them, keeps its value whatever the patch holds, the other
    drafts of the array are not touched, and [updated] is the time of the
    update. With the empty patch every property except [updated] keeps its
    value. *)
Theorem update_merges_patch :
  exists d d',
    stored st !! idx = Some d
    /\ (drafts_update e id req st).1
       = json [(str "ok", Some (VBool true)); (str "draft", Some (VObj d'))]
    /\ drafts_file (drafts_update e id req st).2
       = Array (<[idx := d']> (stored st))
    /\ (forall k, k ∈ patch_fields -> req_body req !! k = None ->
         d' !! k = d !! k)
    /\ (forall k v, k ∈ patch_fields -> req_body req !! k = Some v ->
         v ≠ VNull -> d' !! k = Some v)
    /\ (forall k, k ∉ patch_fields -> k ≠ str "updated" -> d' !! k = d !! k)
    /\ d' !! str "id" = Some (VStr id)
    /\ d' !! str "created" = d !! str "created"
    /\ d' !! str "updated" = Some (VStr (toISOString (clock e (ticks st))))
    /\ (req_body req = ∅ -> forall k, k ≠ str "updated" -> d' !! k = d !! k)
    /\ (forall j, j ≠ idx -> <[idx := d']> (stored st) !! j = stored st !! j).
Proof.
  destruct drafts_update_found as (d & Hd & Hid & Hr).
  cbv zeta in Hr. rewrite Hr.
  exists d, (merge (req_body req) (clock e (ticks st)) d).
  split; [done|]. split; [done|]. split; [done|].
  split. { intros k Hk Hp. by rewrite merge_lookup_field, Hp. }
  split. { intros k v Hk Hp Hv. rewrite merge_lookup_field, Hp by done.
           by destruct v. }
  split. { intros k Hk Hu. by apply merge_lookup_other. }
  split. { rewrite merge_lookup_other; [done| |];
             intros Hin; vm_compute in Hin; set_solver. }
  split. { apply merge_lookup_other;
             intros Hin; vm_compute in Hin; set_solver. }
  split; [apply merge_lookup_updated|].
  split.
  - intros Hempty k Hu. destruct (decide (k ∈ patch_fields)) as [Hk|Hk].
    + by rewrite merge_lookup_field, Hempty, lookup_empty.
    + by apply merge_lookup_other.
  - intros j Hj. by apply list_lookup_insert_ne.
Qed.

(** C10: in [update] a patch property that is [null] is treated as an absent
    one: the draft keeps the value it had for it; and [updated] is stamped on
    every update that goes through, also when the patch has nothing but
    absent or [null] properties and every other property keeps its value. *)
Theorem update_null_is_absent :
  exists d d',
    stored st !! idx = Some d
    /\ (drafts_update e id req st).1
       = json [(str "ok", Some (VBool true)); (str "draft", Some (VObj d'))]
    /\ stored (drafts_update e id req st).2 !! idx = Some d'
    /\ (forall k, k ∈ patch_fields -> req_body req !! k = Some VNull ->
         d' !! k = d !! k)
    /\ d' !! str "updated" = Some (VStr (toISOString (clock e (ticks st))))
    /\ ((forall k, k ∈ patch_fields -> nullish (req_body req !! k) = true) ->
        forall k, k ≠ str "updated" -> d' !! k = d !! k).
Proof.
  destruct drafts_update_found as (d & Hd & Hid & Hr).
  cbv zeta in Hr. rewrite Hr.
  exists d, (merge (req_body req) (clock e (ticks st)) d).
  split; [done|]. split; [done|].
  split. { unfold stored. cbn [snd drafts_file].
           apply list_lookup_insert_eq. by eapply lookup_lt_Some. }
  split. { intros k Hk Hp. by rewrite merge_lookup_field, Hp. }
  split; [apply merge_lookup_updated|].
  intros Hnull k Hu. destruct (decide (k ∈ patch_fields)) as [Hk|Hk].
  - rewrite merge_lookup_field by done. unfold coalesce. by rewrite Hnull.
  - by apply merge_lookup_other.
Qed.

End update.

Lemma update_merges_patch_witness :
  findIndex first_id (stored st1) = Some 0%nat
  /\ exists d',
       (drafts_update env0 first_id
          (put_draft {[ str "caption" := VStr (str "new") ]}) st1).1
       = json [(str "ok", Some (VBool true)); (str "draft", Some (VObj d'))]
       /\ d' !! str "id" = Some (VStr first_id)
       /\ d' !! str "updated"
          = Some (VStr (toISOString (clock env0 (ticks st1)))).
Proof.
  split; [vm_compute; reflexivity|].
  destruct (update_merges_patch env0 first_id
              (put_draft {[ str "caption" := VStr (str "new") ]}) st1 0)
    as (d & d' & _ & Hr & _ & _ & _ & _ & Hid & _ & Hu & _);
    [vm_compute; reflexivity | reflexivity |].
  exists d'. repeat split; assumption.
Defined.

Lemma update_null_is_absent_witness :
  findIndex first_id (stored st1) = Some 0%nat
  /\ exists d d',
       stored st1 !! 0%nat = Some d
       /\ (drafts_update env0 first_id
            (put_draft {[ str "name" := VNull ]}) st1).1
          = json [(str "ok", Some (VBool true)); (str "draft", Some (VObj d'))]
       /\ d' !! str "name" = d !! str "name"
       /\ d' !! str "updated"
          = Some (VStr (toISOString (clock env0 (ticks st1)))).
Proof.
  split; [vm_compute; reflexivity|].
  destruct (update_null_is_absent env0 first_id
              (put_draft {[ str "name" := VNull ]}) st1 0)
    as (d & d' & Hd & Hr & _ & Hn & Hu & _);
    [vm_compute; reflexivity | reflexivity |].
  exists d, d'. repeat split; try assumption.
  apply Hn; [vm_compute; set_solver | reflexivity].
Defined.

(** C9: for an id that no draft of the store carries, [update] and [delete]
    answer 404 [{ ok: false, error: "Draft not found" }] and leave the whole
    state as it was: the drafts file keeps its content and nothing is handed
    to [fs.writeFile]. *)
Theorem unknown_id_not_found (e : env) (id : jsstring) (req : request)
    (st : state) :
  Forall (fun d => ~ has_id id d) (stored st) ->
  drafts_update e id req st = (not_found, st)
  /\ drafts_delete e id st = (not_found, st)
  /\ status not_found = 404%nat
  /\ body_prop not_found (str "ok") = Some (VBool false)
  /\ body_prop not_found (str "error") = Some (VStr (str "Draft not found")).
Proof.
  intros Hnone%findIndex_None.
  unfold drafts_update, drafts_delete, handler.
  cbv [mbind M_bind mret M_ret].
  rewrite readDrafts_stored, Hnone. done.
Qed.

Lemma unknown_id_not_found_witness :
  drafts_update env0 (str "unknown-id")
    (put_draft {[ str "name" := VStr (str "x") ]}) st1 = (not_found, st1)
  /\ drafts_delete env0 (str "unknown-id") st1 = (not_found, st1).
Proof.
  destruct (unknown_id_not_found env0 (str "unknown-id")
              (put_draft {[ str "name" := VStr (str "x") ]}) st1)
    as (Hu & Hd & _).
  - vm_compute. repeat constructor. intros Hid. vm_compute in Hid. congruence.
  - by split.
Defined.

Lemma str_inj : Inj (=) (=) str.
Proof.
  intros s1 s2 Hs. unfold str in Hs.
  assert (Inj (=) (=) Ascii.N_of_ascii) as Hinj.
  { intros a b Hab.
    by rewrite <-(Ascii.ascii_N_embedding a), <-(Ascii.ascii_N_embedding b), Hab. }
  apply (list_fmap_eq_inj _ Hinj) in Hs.
  rewrite <-(String.string_of_list_ascii_of_string s1),
          <-(String.string_of_list_ascii_of_string s2). by rewrite Hs.
Qed.

(** The ids of two creations differ exactly when the clock readings they are
    made of differ. *)
Lemma draft_ids_differ (t1 t2 : Z) :
  str "draft_" ++ str (pretty t1) = str "draft_" ++ str (pretty t2)
  <-> t1 = t2.
Proof.
  split; [|by intros ->].
  intros Heq%app_inv_head%str_inj. by apply (inj pretty).
Qed.

(** C3 (a defect of the code): the id is ["draft_" + Date.now()] and nothing
    else, so two creations that read the clock in the same millisecond get
    the same id. Here two sequential [create] calls with the same body both
    answer 200, both with the id [draft_1700000000000], and the store then
    holds two drafts with that id. *)
Theorem create_twice_same_id :
  let r1 := serve env_same_ms post_draft st0 in
  let r2 := serve env_same_ms post_draft r1.2 in
  status r1.1 = 200%nat /\ status r2.1 = 200%nat
  /\ draft_id "draft" r1.1 = Some (VStr first_id)
  /\ draft_id "draft" r2.1 = Some (VStr first_id)
  /\ (fun d => d !! str "id") <$> stored r2.2
     = [Some (VStr first_id); Some (VStr first_id)].
Proof. vm_compute. repeat split; reflexivity. Qed.

Lemma drafts_delete_found (e : env) (id : jsstring) (st : state) (idx : nat) :
  findIndex id (stored st) = Some idx -> write_error e = None ->
  exists d,
    stored st !! idx = Some d /\ has_id id d
    /\ drafts_delete e id st
       = (json [(str "ok", Some (VBool true)); (str "deleted", Some (VObj d))],
          {| drafts_file := Array (delete idx (stored st));
             writes := delete idx (stored st) :: writes st;
             uploads := uploads st; ticks := ticks st |}).
Proof.
  intros Hidx Hw.
  destruct (findIndex_Some _ _ _ Hidx) as (d & Hd & Hid & _).
  exists d. split; [done|]. split; [done|].
  unfold drafts_delete, handler.
  cbv [mbind M_bind mret M_ret writeDrafts].
  by rewrite readDrafts_stored, Hidx, Hw, Hd.
Qed.


(** C8 (a consequence of the defect of C3): [delete] removes the first draft
    that carries the id and no other. After two creations in the same
    millisecond the store holds two drafts with the id
    [draft_1700000000000]; [delete] of that id answers 200 with the removed
    record, and the [list] that follows still returns a draft with the
    deleted id. *)
Theorem delete_leaves_duplicate_id :
  let st2 := (serve env_same_ms post_draft
                (serve env_same_ms post_draft st0).2).2 in
  let deleted := serve env_same_ms delete_draft st2 in
  let listed := serve env_same_ms get_drafts deleted.2 in
  status deleted.1 = 200%nat
  /\ draft_id "deleted" deleted.1 = Some (VStr first_id)
  /\ status listed.1 = 200%nat
  /\ exists d, body_prop listed.1 (str "drafts") = Some (VArr [VObj d])
               /\ has_id first_id d.
Proof.
  cbv zeta. split; [vm_compute; reflexivity|].
  split; [vm_compute; reflexivity|]. split; [vm_compute; reflexivity|].
  eexists. split; vm_compute; reflexivity.
Qed.

Lemma caption_400 (e : env) (endpoint : M response) (req : request)
    (st : state) :
  status (caption e endpoint req st).1 = 400%nat ->
  truthy (VStr <$> OPENAI_API_KEY e) = true
  /\ req_file req = None
  /\ truthy (req_body req !! str "idea") = false.
Proof.
  intros H400.
  by destruct (caption_outcomes e endpoint req st); try discriminate H400.
Qed.

(** C4 as the claim states it fails: with a credential, an uploaded file
    together with an idea string is answered 200, not 400. *)
Lemma caption_both_supplied_not_rejected :
  ~ (forall e endpoint req st,
       truthy (VStr <$> OPENAI_API_KEY e) = true ->
       ~ exactly_one_supplied req ->
       status (caption e endpoint req st).1 = 400%nat).
Proof.
  intros Hclaim.
  specialize (Hclaim env0 (loopback env0)
                (post_caption (Some video) idea_body) st_uploaded).
  assert (status (caption env0 (loopback env0)
                    (post_caption (Some video) idea_body) st_uploaded).1
          = 200%nat) as H200 by (vm_compute; reflexivity).
  rewrite Hclaim in H200; [discriminate | reflexivity |].
  intros [[_ Hno]|[Hfile _]]; [|discriminate].
  apply Hno. by exists (str "cats").
Qed.

Lemma loopback_state (e : env) (st : state) : (loopback e st).2 = st.
Proof. reflexivity. Qed.

(** When extraction and transcription succeed, both files are unlinked, and
    an unlink that fails changes neither the result nor anything else. *)
Lemma upload_removed_on_success (e : env) (req : request) (st : state)
    (videoPath : jsstring) (text : option jsstring) :
  req_file req = Some videoPath ->
  ffmpeg e videoPath = FfEnd ->
  whisper e (videoPath ++ str ".mp3") = Ok text ->
  exists st',
    context_text e req st = (Ok (inr (default [] text)), st')
    /\ (unlink_error e videoPath = false -> videoPath ∉ uploads st')
    /\ (unlink_error e (videoPath ++ str ".mp3") = false ->
        videoPath ++ str ".mp3" ∉ uploads st').
Proof.
  intros Hfile Hff Hwh. unfold context_text. rewrite Hfile.
  cbv [mbind M_bind mret M_ret lift extract_audio unlink_quiet].
  rewrite Hff, Hwh. eexists. split; [reflexivity|].
  generalize (videoPath ++ str ".mp3"). intros audioPath.
  split; intros Hok; rewrite ?Hok;
    repeat (case_bool_decide || destruct (unlink_error e _));
    cbn [negb andb uploads set_uploads] in *; set_solver.
Qed.

(** When extraction or transcription fails, the answer is 500 and no file is
    unlinked. *)
Lemma upload_kept_on_failure (e : env) (endpoint : M response) (req : request)
    (st : state) (videoPath : jsstring) :
  req_file req = Some videoPath ->
  truthy (VStr <$> OPENAI_API_KEY e) = true ->
  ffmpeg e videoPath ≠ FfEnd
  \/ (exists msg, whisper e (videoPath ++ str ".mp3") = Throw msg) ->
  status (caption e endpoint req st).1 = 500%nat
  /\ uploads st ⊆ uploads (caption e endpoint req st).2.
Proof.
  intros Hfile Hkey Hfail.
  unfold caption, handler, caption_try, context_text.
  rewrite Hkey, Hfile.
  cbv [mbind M_bind mret M_ret lift extract_audio unlink_quiet negb].
  destruct (ffmpeg e videoPath) as [|msg partial] eqn:Hff.
  - destruct Hfail as [?|[msg Hwh]]; [done|]. rewrite Hwh.
    split; [done|]. cbn [snd uploads set_uploads]. set_solver.
  - split; [done|]. destruct partial; cbn [snd uploads set_uploads]; set_solver.
Qed.

(** C5 (a defect of the code): the two [unlinkSync] calls come after the
    awaited extraction and transcription and are not in a [finally], so a
    failure of either skips them. Here the transcription request is rejected:
    the answer is 500 and both the upload and the extracted audio file are
    still in the uploads directory. *)
Theorem upload_kept_when_transcription_fails :
  let run := serve env_whisper_down (post_caption (Some video) ∅)
               st_uploaded in
  status run.1 = 500%nat
  /\ body_prop run.1 (str "error")
     = Some (VStr (str "Caption generation failed"))
  /\ body_prop run.1 (str "detail") = Some (VStr (str "Connection error."))
  /\ uploads st_uploaded = {[ video ]}
  /\ uploads run.2 = {[ video; audio ]}.
Proof. vm_compute. repeat split; reflexivity. Qed.

(** * Further properties of the handlers *)

(** ** The trends handlers *)

Lemma scrape_items_spec (texts : list jsstring) :
  (length (scrape_items texts) <= 40)%nat
  /\ Forall (fun s => s ≠ [] /\ trimmed s) (scrape_items texts)
  /\ scrape_items texts `sublist_of` (trim <$> texts).
Proof.
  unfold scrape_items. split; [rewrite length_take; lia|]. split.
  - apply Forall_take, Forall_forall. intros s Hs.
    apply list_elem_of_filter in Hs as [Hne Hs].
    apply list_elem_of_fmap in Hs as (t & -> & _).
    split; [done | apply trim_trimmed].
  - etrans; [apply sublist_take | apply sublist_filter].
Qed.

(** The handler [app.get("/api/trends")] of server.js, taken by itself,
    always answers 200 with [ok: true]: either the simulated list, or, with
    scraping on and a scrape that gives at least one text, the provider
    [puppeteer] with at most 40 trimmed, non-empty texts in page order. *)
Theorem server_trends_answer (e : env) :
  status (server_trends e) = 200%nat
  /\ body_prop (server_trends e) (str "ok") = Some (VBool true)
  /\ (server_trends e = simulated
      \/ exists texts items,
           USE_PUPPETEER e = Some (str "true")
           /\ puppeteer e = Ok texts
           /\ body_prop (server_trends e) (str "provider")
              = Some (VStr (str "puppeteer"))
           /\ body_prop (server_trends e) (str "data") = Some (strings items)
           /\ items ≠ [] /\ (length items <= 40)%nat
           /\ Forall (fun s => s ≠ [] /\ trimmed s) items
           /\ items `sublist_of` (trim <$> texts)).
Proof.
  unfold server_trends. case_bool_decide as Hon; [|by auto].
  destruct (puppeteer e) as [texts|msg] eqn:Hp; [|by auto].
  case_bool_decide as Hitems; [|by auto].
  split; [done|]. split; [done|]. right.
  exists texts, (scrape_items texts).
  destruct (scrape_items_spec texts) as (Hlen & Hall & Hsub).
  by repeat split.
Qed.

Lemma simplify_trend_null : exists msg, simplify_trend VNull = Throw msg.
Proof. by eexists. Qed.

Lemma simplify_trend_Ok (t : jsval) :
  t ≠ VNull -> exists o, simplify_trend t = Ok o.
Proof.
  intros Ht. unfold simplify_trend.
  assert (forall k, exists v, get_prop (Some t) k = Ok v) as Hget.
  { intros k. destruct t; try done; by eexists. }
  assert (forall v k, exists w, get_prop_opt v k = Ok w) as Hopt.
  { intros v k. unfold get_prop_opt.
    destruct v as [[]|]; cbn [nullish get_prop]; by eexists. }
  destruct (Hget (str "name")) as [name ->].
  destruct (Hget (str "stats")) as [stats ->].
  destruct (Hget (str "music")) as [music ->].
  cbn [mbind exc_bind].
  destruct (Hopt stats (str "videoCount")) as [videos ->].
  destruct (Hopt music (str "title")) as [title ->].
  by eexists.
Qed.

Lemma exc_map_simplify (l : list jsval) :
  (VNull ∉ l -> exists ts, exc_map simplify_trend l = Ok ts
                            /\ length ts = length l)
  /\ (VNull ∈ l -> exists msg, exc_map simplify_trend l = Throw msg).
Proof.
  induction l as [|t l [IHok IHno]]; simpl.
  - split; [by exists [] | by intros ?%elem_of_nil].
  - split.
    + intros [Ht Hl]%not_elem_of_cons.
      destruct (simplify_trend_Ok t) as [o ->]; [done|].
      destruct (IHok Hl) as (ts & -> & Hlen). cbn [mbind exc_bind].
      exists (o :: ts). split; [done|]. simpl. by rewrite Hlen.
    + intros [<-|Hl]%elem_of_cons.
      * destruct simplify_trend_null as [msg ->]. by eexists.
      * assert (t = VNull \/ t ≠ VNull) as [->|Ht]
          by (destruct t; auto; right; discriminate).
        { destruct simplify_trend_null as [msg ->]. by eexists. }
        destruct (simplify_trend_Ok t Ht) as [o ->].
        destruct (IHno Hl) as [msg ->]. by eexists.
Qed.


(** ** The caption pipeline *)

(** Step 2 of the pipeline asks the server's own [/api/trends], which the
    router of trends.js answers without a [data] property: unless the
    request to the own port fails, the trends of the pipeline are the empty
    array, whatever the trends API or the scrape would give; when it fails
    they are the four hard-coded hashtags. The step never throws and leaves
    the state as it is. *)
Lemma pipeline_trends (e : env) (st : state) :
  fetch_trends e (loopback e) st
  = (Ok (match loopback_error e with
         | None => VArr []
         | Some _ => strings [str "#fyp"; str "#viral"; str "#trend";
                              str "#funny"]
         end), st).
Proof.
  unfold fetch_trends, try_catch. cbv [mbind M_bind mret M_ret lift throw].
  destruct (loopback_error e) as [msg|]; [done|].
  change (loopback e st) with (Ok (router_trends e), st).
  by destruct (router_trends_cases e) as [[ts ->]| ->].
Qed.

(** The state after the handler is the state after step 1. *)
Lemma caption_state (e : env) (req : request) (st : state) :
  (caption e (loopback e) req st).2
  = if truthy (VStr <$> OPENAI_API_KEY e) then (context_text e req st).2
    else st.
Proof.
  unfold caption, handler, caption_try.
  destruct (truthy (VStr <$> OPENAI_API_KEY e)); cbn [negb]; [|done].
  bind_step.
  destruct (context_text e req st) as [[[bad|contextText]|msg] st1]; try done.
  bind_step. rewrite pipeline_trends.
  bind_step. destruct (trends_text _) as [trendsText|msg]; [|done].
  bind_step. destruct (chat e _ (captionPrompt _ _) _); [|done].
  bind_step. by destruct (chat e _ (soundPrompt _ _) _).
Qed.



(** Every answer the handler of [POST /api/caption] sends, once a request
    has come through the middleware and the upload handling to it, is 200,
    400 or 500 and carries the boolean [ok], true exactly on 200; an answer
    that is not 200 carries an [error] text and neither [captions] nor
    [sounds]: no partial result. *)
Theorem caption_envelope (e : env) (endpoint : M response) (req : request)
    (st : state) :
  let r := (caption e endpoint req st).1 in
  status r ∈ [200; 400; 500]%nat
  /\ body_prop r (str "ok") = Some (VBool (bool_decide (status r = 200%nat)))
  /\ (status r ≠ 200%nat ->
      (exists msg, body_prop r (str "error") = Some (VStr msg))
      /\ body_prop r (str "captions") = None
      /\ body_prop r (str "sounds") = None).
Proof.
  cbv zeta.
  destruct (caption_outcomes e endpoint req st);
    (split; [cbn [status status_json json]; set_solver|]);
    (split; [reflexivity|]); intros Hne; try (by destruct Hne);
    (split; [by eexists|split; reflexivity]).
Qed.

(** A request without an upload leaves the whole state as it was: the
    uploads directory, the drafts file and the clock are not touched. *)
Theorem caption_idea_keeps_state (e : env) (req : request) (st : state) :
  req_file req = None -> (caption e (loopback e) req st).2 = st.
Proof.
  intros Hfile. rewrite caption_state.
  destruct (truthy (VStr <$> OPENAI_API_KEY e)); [|done].
  unfold context_text. rewrite Hfile.
  by destruct (truthy (req_body req !! str "idea")).
Qed.

Lemma caption_idea_keeps_state_witness :
  (caption env0 (loopback env0) (post_caption None idea_body) st_uploaded).2
  = st_uploaded.
Proof.
  apply (caption_idea_keeps_state env0 (post_caption None idea_body)).
  reflexivity.
Defined.

(** When extraction and transcription of an upload succeed, the handler has
    unlinked both files when it answers, whatever the later steps do: a file
    whose unlink does not fail is gone, and nothing but the audio file was
    added to the uploads directory. *)
Theorem upload_cleaned_after_transcription (e : env) (req : request)
    (st : state) (videoPath : jsstring) (text : option jsstring) :
  truthy (VStr <$> OPENAI_API_KEY e) = true ->
  req_file req = Some videoPath ->
  ffmpeg e videoPath = FfEnd ->
  whisper e (videoPath ++ str ".mp3") = Ok text ->
  let st' := (caption e (loopback e) req st).2 in
  (unlink_error e videoPath = false -> videoPath ∉ uploads st')
  /\ (unlink_error e (videoPath ++ str ".mp3") = false ->
      videoPath ++ str ".mp3" ∉ uploads st')
  /\ uploads st' ⊆ {[ videoPath ++ str ".mp3" ]} ∪ uploads st
  /\ drafts_file st' = drafts_file st.
Proof.
  intros Hkey Hfile Hff Hwh. cbv zeta. rewrite caption_state, Hkey.
  destruct (upload_removed_on_success e req st videoPath text Hfile Hff Hwh)
    as (st' & Hst' & Hv & Ha).
  rewrite Hst'. cbn [snd]. split; [done|]. split; [done|].
  revert Hst'. unfold context_text. rewrite Hfile.
  cbv [mbind M_bind mret M_ret lift extract_audio unlink_quiet].
  rewrite Hff, Hwh. intros [= <-].
  generalize (videoPath ++ str ".mp3"). intros audioPath.
  split.
  - repeat (case_bool_decide || destruct (unlink_error e _));
      cbn [negb andb uploads set_uploads] in *; set_solver.
  - by repeat (case_bool_decide || destruct (unlink_error e _)).
Qed.

Lemma upload_cleaned_after_transcription_witness :
  (video ∉ uploads (caption env0 (loopback env0)
                      (post_caption (Some video) ∅) st_uploaded).2)
  /\ (audio ∉ uploads (caption env0 (loopback env0)
                         (post_caption (Some video) ∅) st_uploaded).2).
Proof.
  destruct (upload_cleaned_after_transcription env0
              (post_caption (Some video) ∅) st_uploaded video
              (Some (str "hello world")))
    as (Hv & Ha & _); try reflexivity.
  split; [apply Hv | apply Ha]; reflexivity.
Defined.

Lemma upload_kept_on_failure_witness :
  status (caption env_whisper_down (loopback env_whisper_down)
            (post_caption (Some video) ∅) st_uploaded).1 = 500%nat
  /\ uploads st_uploaded
     ⊆ uploads (caption env_whisper_down (loopback env_whisper_down)
                  (post_caption (Some video) ∅) st_uploaded).2.
Proof.
  apply (upload_kept_on_failure env_whisper_down (loopback env_whisper_down)
           (post_caption (Some video) ∅) st_uploaded video);
    [reflexivity | reflexivity |].
  right. by exists (str "Connection error.").
Defined.

(** ** The drafts store *)

Lemma drafts_create_ok (e : env) (req : request) (st : state) (name : jsval) :
  req_body req !! str "name" = Some name ->
  truthy (Some name) = true -> write_error e = None ->
  let item :=
    literal [(str "id",
              Some (VStr (str "draft_" ++ str (pretty (clock e (ticks st))))));
             (str "name", Some name);
             (str "caption",
              Some (or_default (req_body req !! str "caption") (VStr [])));
             (str "hashtags",
              Some (or_default (req_body req !! str "hashtags") (VStr [])));
             (str "created",
              Some (VStr (toISOString (clock e (S (ticks st))))))] in
  drafts_create e req st
  = (json [(str "ok", Some (VBool true)); (str "draft", Some (VObj item))],
     {| drafts_file := Array (item :: stored st);
        writes := (item :: stored st) :: writes st;
        uploads := uploads st; ticks := S (S (ticks st)) |}).
Proof.
  intros Hname Htrue Hw. cbv zeta. unfold drafts_create, handler.
  rewrite Hname, Htrue. cbv [mbind M_bind mret M_ret now writeDrafts negb].
  rewrite readDrafts_stored, Hw. reflexivity.
Qed.

(** After a creation that goes through, the created record is the first of
    the stored array, [list] returns it in front of the drafts there were,
    and the id the creation returned designates the created record: it is
    the first draft [findIndex] meets, also when an older draft has the
    same id. *)
Theorem create_then_find (e : env) (req : request) (st : state) :
  truthy (req_body req !! str "name") = true -> write_error e = None ->
  exists item id,
    (drafts_create e req st).1
    = json [(str "ok", Some (VBool true)); (str "draft", Some (VObj item))]
    /\ item !! str "id" = Some (VStr id)
    /\ stored (drafts_create e req st).2 = item :: stored st
    /\ findIndex id (stored (drafts_create e req st).2) = Some 0%nat
    /\ (drafts_list (drafts_create e req st).2).1
       = json [(str "ok", Some (VBool true));
               (str "drafts",
                Some (VArr (VObj item :: (VObj <$> stored st))))].
Proof.
  intros Htrue Hw.
  destruct (truthy_Some _ Htrue) as [name Hname]. rewrite Hname in Htrue.
  rewrite (drafts_create_ok e req st name Hname Htrue Hw).
  eexists. exists (str "draft_" ++ str (pretty (clock e (ticks st)))).
  split; [reflexivity|]. split; [reflexivity|]. split; [reflexivity|].
  split.
  - unfold stored, findIndex. cbn [snd drafts_file list_find].
    rewrite decide_True; [done|]. reflexivity.
  - unfold drafts_list, handler. cbv [mbind M_bind mret M_ret].
    rewrite readDrafts_stored. reflexivity.
Qed.

Lemma create_then_find_witness :
  exists item,
    stored (drafts_create env0 post_draft st0).2 = item :: stored st0
    /\ findIndex first_id (stored (drafts_create env0 post_draft st0).2)
       = Some 0%nat.
Proof.
  destruct (create_then_find env0 post_draft st0)
    as (item & id & _ & _ & Hst & _); [reflexivity | reflexivity |].
  exists item. split; [exact Hst|]. vm_compute. reflexivity.
Defined.

(** Two creations that follow each other get the same id exactly when the
    clock shows the same millisecond at both. *)
Theorem creations_same_id_iff (e : env) (req1 req2 : request) (st : state) :
  truthy (req_body req1 !! str "name") = true ->
  truthy (req_body req2 !! str "name") = true ->
  write_error e = None ->
  let r1 := drafts_create e req1 st in
  let r2 := drafts_create e req2 r1.2 in
  draft_id "draft" r1.1 = draft_id "draft" r2.1
  <-> clock e (ticks st) = clock e (S (S (ticks st))).
Proof.
  intros Ht1 Ht2 Hw. cbv zeta.
  destruct (truthy_Some _ Ht1) as [n1 Hn1]. rewrite Hn1 in Ht1.
  destruct (truthy_Some _ Ht2) as [n2 Hn2]. rewrite Hn2 in Ht2.
  rewrite (drafts_create_ok e req1 st n1 Hn1 Ht1 Hw). cbn [fst snd].
  rewrite (drafts_create_ok e req2 _ n2 Hn2 Ht2 Hw). cbn [fst snd ticks].
  set (id1 := str "draft_" ++ str (pretty (clock e (ticks st)))).
  set (id2 := str "draft_" ++ str (pretty (clock e (S (S (ticks st)))))).
  assert (forall item, draft_id "draft"
            (json [(str "ok", Some (VBool true));
                   (str "draft", Some (VObj item))]) = item !! str "id")
    as Hid by reflexivity.
  rewrite !Hid.
  change (Some (VStr id1) = Some (VStr id2)
          <-> clock e (ticks st) = clock e (S (S (ticks st)))).
  split.
  - intros [= Heq%str_inj]. by apply (inj pretty) in Heq.
  - intros Heq. unfold id1, id2. by rewrite Heq.
Qed.

Lemma creations_same_id_iff_witness :
  draft_id "draft" (drafts_create env0 post_draft st0).1
  ≠ draft_id "draft"
      (drafts_create env0 post_draft (drafts_create env0 post_draft st0).2).1.
Proof.
  intros Heq.
  apply (creations_same_id_iff env0 post_draft post_draft st0) in Heq;
    [|reflexivity|reflexivity|reflexivity].
  vm_compute in Heq. discriminate Heq.
Defined.

Lemma drafts_update_missing (e : env) (id : jsstring) (req : request)
    (st : state) :
  findIndex id (stored st) = None -> drafts_update e id req st = (not_found, st).
Proof.
  intros Hnone. unfold drafts_update, handler. cbv [mbind M_bind mret M_ret].
  by rewrite readDrafts_stored, Hnone.
Qed.

Lemma ids_unique_fmap (l l' : list obj) :
  (fun d => d !! str "id") <$> l' = (fun d => d !! str "id") <$> l ->
  ids_unique l -> ids_unique l'.
Proof.
  intros Hids Huniq i j d1 d2 id Hi Hj H1 H2.
  assert (forall n d, l' !! n = Some d ->
            exists d0, l !! n = Some d0 /\ d0 !! str "id" = d !! str "id")
    as Hback.
  { intros n d Hn.
    assert (((fun d => d !! str "id") <$> l) !! n = Some (d !! str "id"))
      as Hl by (by rewrite <-Hids, list_lookup_fmap, Hn).
    rewrite list_lookup_fmap in Hl.
    destruct (l !! n) as [d0|]; [|done]. injection Hl as Hl. by exists d0. }
  destruct (Hback i d1 Hi) as (e1 & He1 & Hid1).
  destruct (Hback j d2 Hj) as (e2 & He2 & Hid2).
  apply (Huniq i j e1 e2 id He1 He2); unfold has_id in *; congruence.
Qed.

Lemma drafts_update_fmap (e : env) (id : jsstring) (req : request)
    (st : state) (k : jsstring) :
  write_error e = None ->
  k ∉ patch_fields -> k ≠ str "updated" ->
  (fun d => d !! k) <$> stored (drafts_update e id req st).2
  = (fun d => d !! k) <$> stored st.
Proof.
  intros Hw Hk Hu.
  destruct (findIndex id (stored st)) as [idx|] eqn:Hidx.
  - destruct (drafts_update_found e id req st idx Hidx Hw)
      as (d & Hd & _ & Hr).
    cbv zeta in Hr. rewrite Hr. unfold stored at 1. cbn [snd drafts_file].
    rewrite list_fmap_insert, merge_lookup_other by done.
    apply list_insert_id. by rewrite list_lookup_fmap, Hd.
  - by rewrite drafts_update_missing.
Qed.

Lemma ids_unique_singleton (d : obj) : ids_unique [d].
Proof.
  intros i j d1 d2 id Hi Hj _ _.
  apply lookup_lt_Some in Hi, Hj. simpl in *. lia.
Qed.

(** [update], found or not, changes nothing but the three patch properties
    and [updated] of the one draft it finds: for every other property, [id]
    and [created] among them, the values over the whole stored array are the
    same after the update as before, in the same order; the number of drafts
    is kept, and ids that were unique stay unique. *)
Theorem update_keeps_other_properties (e : env) (id : jsstring)
    (req : request) (st : state) :
  write_error e = None ->
  (forall k, k ∉ patch_fields -> k ≠ str "updated" ->
     (fun d => d !! k) <$> stored (drafts_update e id req st).2
     = (fun d => d !! k) <$> stored st)
  /\ length (stored (drafts_update e id req st).2) = length (stored st)
  /\ (ids_unique (stored st) ->
      ids_unique (stored (drafts_update e id req st).2)).
Proof.
  intros Hw.
  assert ((fun d => d !! str "id") <$> stored (drafts_update e id req st).2
          = (fun d => d !! str "id") <$> stored st) as Hids.
  { apply drafts_update_fmap; [done| |];
      intros Hin; vm_compute in Hin; set_solver. }
  split; [intros k Hk Hu; by apply drafts_update_fmap|].
  split; [|intros Huniq; by eapply ids_unique_fmap].
  apply (f_equal length) in Hids. by rewrite !length_fmap in Hids.
Qed.

Lemma update_keeps_other_properties_witness :
  (fun d => d !! str "id")
    <$> stored (drafts_update env0 first_id
                  (put_draft {[ str "name" := VStr (str "renamed") ]}) st1).2
  = (fun d => d !! str "id") <$> stored st1.
Proof.
  destruct (update_keeps_other_properties env0 first_id
              (put_draft {[ str "name" := VStr (str "renamed") ]}) st1)
    as (Hk & _); [reflexivity|].
  apply Hk; intros Hin; vm_compute in Hin; set_solver.
Defined.

Lemma findIndex_insert (id : jsstring) (l : list obj) (idx : nat) (d' : obj) :
  findIndex id l = Some idx -> has_id id d' ->
  findIndex id (<[idx := d']> l) = Some idx.
Proof.
  intros (d & Hd & Hid & Hfirst)%findIndex_Some Hid'. unfold findIndex.
  assert (list_find (has_id id) (<[idx := d']> l) = Some (idx, d')) as ->;
    [|done].
  apply list_find_Some. split; [|split; [done|]].
  - apply list_lookup_insert_eq. by eapply lookup_lt_Some.
  - intros j y Hj Hlt. rewrite list_lookup_insert_ne in Hj by lia.
    by eapply Hfirst.
Qed.

Lemma merge_twice (patch : obj) (t1 t2 : Z) (d : obj) (k : jsstring) :
  k ≠ str "updated" ->
  merge patch t2 (merge patch t1 d) !! k = merge patch t1 d !! k.
Proof.
  intros Hu. destruct (decide (k ∈ patch_fields)) as [Hk|Hk].
  - rewrite !merge_lookup_field by done. unfold coalesce.
    by destruct (nullish (patch !! k)).
  - by rewrite !merge_lookup_other.
Qed.

(** Sending the same patch a second time changes nothing but [updated]: the
    draft answered by the second update has, for every other property, the
    value it had after the first. *)
Theorem update_twice (e : env) (id : jsstring) (req : request) (st : state)
    (idx : nat) :
  findIndex id (stored st) = Some idx -> write_error e = None ->
  let first := drafts_update e id req st in
  let second := drafts_update e id req first.2 in
  exists d1 d2,
    first.1 = json [(str "ok", Some (VBool true));
                    (str "draft", Some (VObj d1))]
    /\ second.1 = json [(str "ok", Some (VBool true));
                       (str "draft", Some (VObj d2))]
    /\ (forall k, k ≠ str "updated" -> d2 !! k = d1 !! k)
    /\ d2 !! str "updated"
       = Some (VStr (toISOString (clock e (S (ticks st)))))
    /\ length (stored second.2) = length (stored st).
Proof.
  intros Hidx Hw. cbv zeta.
  destruct (drafts_update_found e id req st idx Hidx Hw)
    as (d & Hd & Hid & Hr).
  cbv zeta in Hr. rewrite Hr. cbn [fst snd].
  set (d1 := merge (req_body req) (clock e (ticks st)) d) in *.
  set (st1 := {| drafts_file := Array (<[idx := d1]> (stored st));
                 writes := <[idx := d1]> (stored st) :: writes st;
                 uploads := uploads st; ticks := S (ticks st) |}).
  assert (has_id id d1) as Hid1.
  { unfold has_id, d1. rewrite merge_lookup_other; [done| |];
      intros Hin; vm_compute in Hin; set_solver. }
  assert (findIndex id (stored st1) = Some idx) as Hidx1
    by (by apply findIndex_insert).
  destruct (drafts_update_found e id req st1 idx Hidx1 Hw)
    as (d' & Hd' & _ & Hr1).
  cbv zeta in Hr1. rewrite Hr1. cbn [fst snd].
  assert (d' = d1) as ->.
  { unfold stored in Hd'. cbn [st1 drafts_file] in Hd'.
    rewrite list_lookup_insert_eq in Hd' by (by eapply lookup_lt_Some).
    by injection Hd'. }
  exists d1, (merge (req_body req) (clock e (S (ticks st))) d1).
  split; [done|]. split; [done|].
  split; [intros k Hk; by apply merge_twice|].
  split; [apply merge_lookup_updated|].
  unfold stored. cbn [st1 drafts_file]. by rewrite !length_insert.
Qed.

Lemma update_twice_witness :
  exists d1 d2 : obj,
    (drafts_update env0 first_id
       (put_draft {[ str "caption" := VStr (str "new") ]}) st1).1
    = json [(str "ok", Some (VBool true)); (str "draft", Some (VObj d1))]
    /\ d2 !! str "caption" = d1 !! str "caption".
Proof.
  destruct (update_twice env0 first_id
              (put_draft {[ str "caption" := VStr (str "new") ]}) st1 0)
    as (d1 & d2 & H1 & _ & Hk & _); [vm_compute; reflexivity | reflexivity |].
  exists d1, d2. split; [exact H1|].
  apply Hk. intros Heq. vm_compute in Heq. discriminate Heq.
Defined.

Lemma ids_unique_delete (l : list obj) (idx : nat) :
  ids_unique l -> ids_unique (delete idx l).
Proof.
  intros Huniq i j d1 d2 id Hi Hj H1 H2.
  assert (forall n d, delete idx l !! n = Some d ->
            l !! (if decide (n < idx)%nat then n else S n) = Some d) as Hpos.
  { intros n d Hn. case_decide.
    - by rewrite list_lookup_delete_lt in Hn.
    - by rewrite list_lookup_delete_ge in Hn by lia. }
  pose proof (Huniq _ _ _ _ _ (Hpos _ _ Hi) (Hpos _ _ Hj) H1 H2) as Heq.
  repeat case_decide; lia.
Qed.

(** [delete] of an id that is found removes one draft and no more: the
    stored array loses exactly the first draft with the id, the others stay
    in their order, and ids that were unique stay unique. *)
Theorem delete_removes_one (e : env) (id : jsstring) (st : state)
    (idx : nat) :
  findIndex id (stored st) = Some idx -> write_error e = None ->
  let st' := (drafts_delete e id st).2 in
  stored st' = take idx (stored st) ++ drop (S idx) (stored st)
  /\ S (length (stored st')) = length (stored st)
  /\ Forall (fun d => ~ has_id id d) (take idx (stored st))
  /\ stored st' `sublist_of` stored st
  /\ (ids_unique (stored st) -> ids_unique (stored st')).
Proof.
  intros Hidx Hw. cbv zeta.
  destruct (drafts_delete_found e id st idx Hidx Hw) as (d & Hd & Hid & Hr).
  destruct (findIndex_Some _ _ _ Hidx) as (_ & _ & _ & Hfirst).
  assert (stored (drafts_delete e id st).2 = delete idx (stored st)) as ->
    by (by rewrite Hr).
  split; [apply delete_take_drop|].
  split.
  { rewrite length_delete by eauto.
    apply lookup_lt_Some in Hd. lia. }
  split.
  { apply Forall_lookup. intros j y Hj.
    apply lookup_take_Some in Hj as [Hj Hlt]. by eapply Hfirst. }
  split; [apply sublist_delete|]. apply ids_unique_delete.
Qed.

Lemma delete_removes_one_witness :
  S (length (stored (drafts_delete env0 first_id st1).2)) = length (stored st1).
Proof.
  destruct (delete_removes_one env0 first_id st1 0) as (_ & Hlen & _);
    [vm_compute; reflexivity | reflexivity |].
  exact Hlen.
Defined.


(** When the write of the drafts file is rejected, [create], [update] and
    [delete] answer 500 with their own error text and do not disclose the
    message of the error. *)
Theorem write_rejected (e : env) (id : jsstring) (req : request) (st : state)
    (msg : jsstring) :
  write_error e = Some msg ->
  (truthy (req_body req !! str "name") = true ->
   (drafts_create e req st).1
   = status_json 500 (error_body "Failed to save draft"))
  /\ (is_Some (findIndex id (stored st)) ->
      (drafts_update e id req st).1
      = status_json 500 (error_body "Failed to update draft")
      /\ (drafts_delete e id st).1
         = status_json 500 (error_body "Failed to delete draft")).
Proof.
  intros Hw. split.
  - intros Hname. unfold drafts_create, handler. rewrite Hname.
    cbv [mbind M_bind mret M_ret now writeDrafts negb].
    by rewrite readDrafts_stored, Hw.
  - intros [idx Hidx]. split.
    + unfold drafts_update, handler.
      cbv [mbind M_bind mret M_ret now writeDrafts].
      by rewrite readDrafts_stored, Hidx, Hw.
    + unfold drafts_delete, handler.
      cbv [mbind M_bind mret M_ret writeDrafts].
      by rewrite readDrafts_stored, Hidx, Hw.
Qed.

Lemma write_rejected_witness :
  (drafts_create env_disk_full post_draft st1).1
  = status_json 500 (error_body "Failed to save draft")
  /\ (drafts_delete env_disk_full first_id st1).1
     = status_json 500 (error_body "Failed to delete draft").
Proof.
  destruct (write_rejected env_disk_full first_id post_draft st1
              (str "ENOSPC: no space left on device, write"))
    as (Hc & Hud); [reflexivity|].
  split; [apply Hc; reflexivity|].
  apply Hud. exists 0%nat. vm_compute. reflexivity.
Defined.

(** A drafts file that cannot be read or parsed counts as the empty array:
    [list] answers 200 with no draft, [update] and [delete] answer 404
    without writing, and a creation that goes through replaces the file by
    an array of the new record alone. *)
Theorem unreadable_file_is_empty (e : env) (id : jsstring) (req : request)
    (st : state) :
  drafts_file st = Unreadable ->
  drafts_list st
  = (json [(str "ok", Some (VBool true)); (str "drafts", Some (VArr []))], st)
  /\ drafts_update e id req st = (not_found, st)
  /\ drafts_delete e id st = (not_found, st)
  /\ (truthy (req_body req !! str "name") = true -> write_error e = None ->
      exists item,
        (drafts_create e req st).1
        = json [(str "ok", Some (VBool true)); (str "draft", Some (VObj item))]
        /\ drafts_file (drafts_create e req st).2 = Array [item]).
Proof.
  intros Hfile.
  assert (stored st = []) as Hempty by (unfold stored; by rewrite Hfile).
  split.
  { unfold drafts_list, handler. cbv [mbind M_bind mret M_ret].
    by rewrite readDrafts_stored, Hempty. }
  split.
  { apply drafts_update_missing. by rewrite Hempty. }
  split.
  { unfold drafts_delete, handler. cbv [mbind M_bind mret M_ret].
    by rewrite readDrafts_stored, Hempty. }
  intros Htrue Hw.
  destruct (truthy_Some _ Htrue) as [name Hname]. rewrite Hname in Htrue.
  rewrite (drafts_create_ok e req st name Hname Htrue Hw), Hempty.
  by eexists.
Qed.

Lemma unreadable_file_is_empty_witness :
  drafts_list st_corrupt
  = (json [(str "ok", Some (VBool true)); (str "drafts", Some (VArr []))],
     st_corrupt)
  /\ exists item,
       drafts_file (drafts_create env0 post_draft st_corrupt).2 = Array [item].
Proof.
  destruct (unreadable_file_is_empty env0 first_id post_draft st_corrupt)
    as (Hl & _ & _ & Hc); [reflexivity|].
  split; [exact Hl|].
  destruct Hc as (item & _ & Hf); [reflexivity | reflexivity |].
  by exists item.
Defined.

(** ** The application *)

Lemma dispatch_cons (l : layer) (ls : list layer) (req : request)
    (st : state) :
  dispatch (l :: ls) req st
  = match l req st with
    | Some r => Some r
    | None => dispatch ls req st
    end.
Proof. reflexivity. Qed.

Lemma dispatch_app (ls1 ls2 : list layer) (req : request) (st : state) :
  dispatch (ls1 ++ ls2) req st
  = match dispatch ls1 req st with
    | Some r => Some r
    | None => dispatch ls2 req st
    end.
Proof.
  induction ls1 as [|l ls1 IH]; [done|].
  rewrite <-app_comm_cons, !dispatch_cons. by destruct (l req st).
Qed.

(** ** The parser on a well-formed answer *)

Lemma drop_while_id (p : N -> bool) (s : jsstring) :
  (forall c, head s = Some c -> p c = false) -> drop_while p s = s.
Proof. intros Hs. destruct s as [|c s]; [done|]. simpl. by rewrite (Hs c). Qed.

Lemma trim_id (s : jsstring) : trimmed s -> trim s = s.
Proof.
  intros [Hhead Hlast]. unfold trim.
  rewrite (drop_while_id _ s) by done.
  rewrite drop_while_id; [apply reverse_involutive|].
  intros c. rewrite head_reverse. apply Hlast.
Qed.

Lemma is_digit_not_space (c : N) : is_digit c = true -> is_space c = false.
Proof.
  unfold is_digit, is_space. intros [Hlo Hhi]%andb_true_iff.
  apply N.leb_le in Hlo, Hhi. apply orb_false_iff. split.
  - apply bool_decide_eq_false_2. intros Hin.
    repeat (apply elem_of_cons in Hin as [->|Hin]; [lia|]).
    by apply elem_of_nil in Hin.
  - apply andb_false_iff. left. apply N.leb_gt. lia.
Qed.

Lemma split_lines_single (l : jsstring) : LF ∉ l -> split_lines l = [l].
Proof.
  induction l as [|c l IH]; [done|]. intros [Hc Hl]%not_elem_of_cons.
  specialize (IH Hl).
  change (split_lines (c :: l)) with
    (if bool_decide (c = LF) then [] :: split_lines l
     else match l with
          | d :: rest' =>
              if bool_decide (c = CR) && bool_decide (d = LF)
              then [] :: split_lines rest'
              else cons_first c (split_lines l)
          | [] => [[c]]
          end).
  rewrite bool_decide_eq_false_2 by done.
  destruct l as [|d l']; [done|].
  apply not_elem_of_cons in Hl as [Hd _].
  rewrite (bool_decide_eq_false_2 (d = LF)) by done.
  rewrite andb_false_r. by rewrite IH.
Qed.

Lemma split_lines_line (l rest : jsstring) :
  LF ∉ l -> last l ≠ Some CR ->
  split_lines (l ++ LF :: rest) = l :: split_lines rest.
Proof.
  induction l as [|c l IH]; intros Hl Hlast.
  - reflexivity.
  - apply not_elem_of_cons in Hl as [Hc Hl].
    change (split_lines ((c :: l) ++ LF :: rest)) with
      (if bool_decide (c = LF) then [] :: split_lines (l ++ LF :: rest)
       else match l ++ LF :: rest with
            | d :: rest' =>
                if bool_decide (c = CR) && bool_decide (d = LF)
                then [] :: split_lines rest'
                else cons_first c (split_lines (l ++ LF :: rest))
            | [] => [[c]]
            end).
    rewrite bool_decide_eq_false_2 by done.
    destruct l as [|d l'].
    + simpl app. rewrite (bool_decide_eq_false_2 (c = CR)).
      * cbn [andb]. rewrite (IH Hl); [done|]. done.
      * intros ->. by apply Hlast.
    + rewrite <-app_comm_cons.
      apply not_elem_of_cons in Hl as [Hd Hl'].
      rewrite (bool_decide_eq_false_2 (d = LF)) by done.
      rewrite andb_false_r, app_comm_cons, IH; [done| |].
      * by apply not_elem_of_cons.
      * by rewrite last_cons_cons in Hlast.
Qed.

Lemma split_lines_lines (ls : list jsstring) :
  ls ≠ [] ->
  Forall (fun l => (LF ∉ l) /\ last l ≠ Some CR) ls ->
  split_lines (lines ls) = ls.
Proof.
  intros Hne Hall. induction Hall as [|l ls [Hl Hcr] Hall IH]; [done|].
  destruct ls as [|l2 ls].
  - simpl. by apply split_lines_single.
  - change (lines (l :: l2 :: ls)) with (l ++ LF :: lines (l2 :: ls)).
    rewrite split_lines_line by done. by rewrite IH.
Qed.

Lemma lines_ends (ls : list jsstring) :
  ls ≠ [] -> Forall (fun l => l ≠ []) ls ->
  head (lines ls) = (head ls ≫= head)
  /\ last (lines ls) = (last ls ≫= last).
Proof.
  unfold jsstring in *.
  intros Hne Hall. induction Hall as [|l ls Hl Hall IH]; [done|].
  destruct ls as [|l2 ls].
  - done.
  - change (lines (l :: l2 :: ls)) with (l ++ LF :: lines (l2 :: ls)).
    destruct (IH ltac:(done)) as [_ IH']. split.
    + by destruct l.
    + rewrite last_app_cons, last_cons, IH', last_cons_cons.
      assert (exists k, last (l2 :: ls) = Some k) as [k Hk].
      { destruct (last (l2 :: ls)) as [k|] eqn:Hk; [by exists k|].
        by apply last_None in Hk. }
      rewrite Hk. simpl. destruct (last k) eqn:Hlast; [done|].
      exfalso. apply last_None in Hlast. subst k.
      apply last_Some_elem_of in Hk.
      rewrite Forall_forall in Hall. by apply (Hall [] Hk).
Qed.

Lemma written_as_line (line text : jsstring) :
  written_as line text ->
  line ≠ [] /\ (LF ∉ line)
  /\ (forall c, head line = Some c -> is_space c = false)
  /\ (forall c, last line = Some c -> is_space c = false)
  /\ clean_line line = text.
Proof.
  intros (Hne & [Hhead Hlast] & HLF & [[-> Hplain]|Hnum]).
  - repeat split; try done. unfold clean_line.
    rewrite strip_number_unnumbered by done. by apply trim_id.
  - destruct Hnum as (ds & ws & -> & Hds & Hdig & Hws).
    assert (last (ds ++ DOT :: ws ++ text) = last text) as Hl.
    { rewrite last_app_cons, app_comm_cons, last_app.
      destruct (last text) eqn:Ht; [done|].
      apply last_None in Ht. by subst. }
    split; [by destruct ds|]. split.
    { rewrite !not_elem_of_app, not_elem_of_cons, not_elem_of_app.
      split; [|split; [done|split; [|done]]].
      - intros Hin. rewrite Forall_forall in Hdig.
        by specialize (Hdig _ Hin).
      - intros Hin. rewrite Forall_forall in Hws.
        by destruct (Hws _ Hin). }
    split.
    { destruct ds as [|d ds]; [done|]. intros c [= <-].
      apply is_digit_not_space. by inversion Hdig. }
    split; [by rewrite Hl|].
    unfold clean_line. rewrite strip_number_numbered; try done.
    + by apply trim_id.
    + eapply Forall_impl; [exact Hws|]. by intros c [? _].
Qed.

Lemma written_as_all (ls texts : list jsstring) :
  Forall2 written_as ls texts ->
  Forall (fun l => l ≠ [] /\ (LF ∉ l)
            /\ (forall c, head l = Some c -> is_space c = false)
            /\ (forall c, last l = Some c -> is_space c = false)) ls
  /\ clean_line <$> ls = texts
  /\ Forall (fun t => t ≠ []) texts.
Proof.
  induction 1 as [|line text ls texts Hw _ (IH1 & IH2 & IH3)]; [done|].
  pose proof Hw as (Hne & _).
  apply written_as_line in Hw as (H1 & H2 & H3 & H4 & H5).
  split; [by constructor|]. split; [|by constructor].
  rewrite fmap_cons. congruence.
Qed.

(** The parser recovers a well-formed answer: when the completion is a list
    of lines joined by line feeds, each line an entry as it is or after a
    numbering of digits, a dot and blanks, the parsed list is the first [n]
    entries, in order and with the numbering gone. *)
Theorem parse_list_recovers (n : nat) (ls texts : list jsstring) :
  Forall2 written_as ls texts ->
  parse_list n (Some (lines ls)) = take n texts.
Proof.
  intros (Hlines & Hclean & Htexts)%written_as_all. unfold parse_list.
  destruct ls as [|l ls].
  { simpl in Hclean. subst texts. by destruct n. }
  assert (trim (lines (l :: ls)) = lines (l :: ls)) as ->.
  { apply trim_id.
    destruct (lines_ends (l :: ls)) as [Hh Hl]; [done| |].
    { eapply Forall_impl; [exact Hlines|]. by intros x (? & _). }
    rewrite Forall_forall in Hlines. split; intros c.
    - rewrite Hh. simpl. intros Hc.
      destruct (Hlines l) as (_ & _ & Hhd & _); [by left|]. by apply Hhd.
    - rewrite Hl. destruct (last (l :: ls)) as [k|] eqn:Hk; [|done].
      simpl. intros Hc.
      destruct (Hlines k) as (_ & _ & _ & Hlt);
        [by apply last_Some_elem_of|]. by apply Hlt. }
  rewrite split_lines_lines; [|done|].
  2:{ eapply Forall_impl; [exact Hlines|].
      intros x (_ & HLF & _ & Hlast). split; [done|].
      intros Hcr. by specialize (Hlast _ Hcr). }
  rewrite Hclean. f_equal.
  clear -Htexts. unfold jsstring in *. induction Htexts as [|t texts Ht _ IH]; [done|].
  rewrite filter_cons_True by done. by rewrite IH.
Qed.

Lemma parse_list_recovers_witness :
  parse_list 4 (Some (lines [str "1. Learn it"; str "POV: you tried it"]))
  = [str "Learn it"; str "POV: you tried it"].
Proof.
  apply (parse_list_recovers 4
           [str "1. Learn it"; str "POV: you tried it"]
           [str "Learn it"; str "POV: you tried it"]).
  assert (forall text : jsstring,
            bool_decide (text ≠ []) = true ->
            (from_option (fun c => negb (is_space c)) true (head text)) = true ->
            (from_option (fun c => negb (is_space c)) true (last text)) = true ->
            bool_decide (LF ∉ text) = true ->
            text ≠ [] /\ trimmed text /\ (LF ∉ text)) as Hclean.
  { intros text Hne Hh Hl HLF. split; [by apply bool_decide_eq_true in Hne|].
    split; [|by apply bool_decide_eq_true in HLF].
    split; intros c Hc; rewrite Hc in *; simpl in *;
      by destruct (is_space c). }
  constructor; [|constructor; [|constructor]].
  - destruct (Hclean (str "Learn it")) as (H1 & H2 & H3);
      [reflexivity..|].
    split; [done|]. split; [done|]. split; [done|].
    right. exists (str "1"), (str " "). split; [reflexivity|].
    split; [discriminate|]. split; repeat constructor; discriminate.
  - destruct (Hclean (str "POV: you tried it")) as (H1 & H2 & H3);
      [reflexivity..|].
    split; [done|]. split; [done|]. split; [done|].
    left. split; [reflexivity|]. by intros c [= <-].
Defined.

(** ** The name of an upload *)

Lemma str_cons (c : Ascii.ascii) (s : string) :
  str (String c s) = Ascii.N_of_ascii c :: str s.
Proof. reflexivity. Qed.

Lemma pretty_N_go_no_dash (x : N) (s : string) :
  DASH ∉ str s -> DASH ∉ str (pretty_N_go x s).
Proof.
  revert s. induction (N.lt_wf_0 x) as [x _ IH]. intros s Hs.
  assert (x = 0 \/ 0 < x)%N as [->|Hpos] by lia; [done|].
  rewrite pretty_N_go_step by done. apply IH; [by apply N.div_lt|].
  rewrite str_cons. apply not_elem_of_cons. split; [|done].
  unfold pretty_N_char. by repeat case_match.
Qed.

Lemma pretty_no_dash (t : Z) : 0 <= t -> DASH ∉ str (pretty t).
Proof.
  intros Ht. destruct t as [|p|p]; [| |lia].
  - apply (bool_decide_unpack _). vm_compute. exact I.
  - unfold pretty, pretty_Z, pretty, pretty_positive, pretty, pretty_N.
    rewrite decide_False by done. apply pretty_N_go_no_dash.
    apply not_elem_of_nil.
Qed.

(** The name under which an upload is stored determines the clock reading,
    the random part and the original name it is made of: two uploads never
    get the same name unless they agree on all three, so uploads of files
    with the same original name do not collide as long as the clock or the
    random part differs. The clock is not before 1970 and the random part,
    digits of base 36, has no dash. *)
Theorem upload_filename_inj (t1 t2 : Z) (r1 r2 n1 n2 : jsstring) :
  0 <= t1 -> 0 <= t2 -> DASH ∉ r1 -> DASH ∉ r2 ->
  upload_filename t1 r1 n1 = upload_filename t2 r2 n2 ->
  t1 = t2 /\ r1 = r2 /\ n1 = n2.
Proof.
  intros Ht1 Ht2 Hr1 Hr2. unfold upload_filename.
  change (str "-") with [DASH]. rewrite <-!app_assoc. simpl.
  intros Heq.
  apply not_elem_of_app_cons_inv_l in Heq as (Ht & _ & Heq);
    [|by apply pretty_no_dash..].
  apply not_elem_of_app_cons_inv_l in Heq as (Hr & _ & Hn); [|done..].
  apply str_inj, (inj pretty) in Ht. done.
Qed.

Lemma upload_filename_inj_witness :
  upload_filename 1700000000000 (str "k3j9x1a") (str "clip.mp4")
  ≠ upload_filename 1700000000000 (str "q0w8e2z") (str "clip.mp4").
Proof.
  intros Heq.
  apply (upload_filename_inj 1700000000000 1700000000000) in Heq
    as (_ & Hr & _); [discriminate Hr|lia|lia| |];
    apply (bool_decide_unpack _); vm_compute; exact I.
Defined.

(** * The parser against the words of the specification *)

Lemma is_digit_DOT : is_digit DOT = false.
Proof. reflexivity. Qed.

Lemma trimmed_of_trim (s : jsstring) : trimmed_of s (trim s).
Proof. split; [apply trim_trimmed | apply trim_decompose]. Qed.

Lemma trimmed_of_unique (s out : jsstring) : trimmed_of s out -> out = trim s.
Proof.
  intros [[Hhead Hlast] (a & b & -> & Ha & Hb)]. unfold trim.
  destruct out as [|c out].
  - rewrite app_nil_l.
    destruct (take_while_app is_space (a ++ b) []) as [_ Hd];
      [by apply Forall_app|done|].
    rewrite app_nil_r in Hd. by rewrite Hd.
  - destruct (take_while_app is_space a ((c :: out) ++ b) Ha) as [_ ->].
    { intros c' [= <-]. by apply Hhead. }
    rewrite reverse_app.
    destruct (take_while_app is_space (reverse b) (reverse (c :: out)))
      as [_ ->].
    + by apply Forall_reverse.
    + intros c'. rewrite head_reverse. apply Hlast.
    + by rewrite reverse_involutive.
Qed.

Lemma unnumbered_of_strip (line : jsstring) :
  unnumbered_of line (strip_number line).
Proof.
  assert (forall ds rest, ds ≠ [] -> digits ds -> line = ds ++ DOT :: rest ->
            take_while is_digit line = ds
            /\ drop_while is_digit line = DOT :: rest) as Hnum.
  { intros ds rest _ Hds ->. apply take_while_app; [done|].
    by intros c [= <-]. }
  destruct (take_drop_while is_digit line) as [Hline Hds].
  unfold strip_number.
  destruct (take_while is_digit line) as [|d ds] eqn:Htw.
  { right. split; [done|]. intros ds rest Hne Hdig Heq.
    destruct (Hnum ds rest Hne Hdig Heq) as [Ht _]. congruence. }
  destruct (drop_while is_digit line) as [|c rest] eqn:Hdw.
  { right. split; [done|]. intros ds' rest' Hne Hdig Heq.
    by destruct (Hnum ds' rest' Hne Hdig Heq) as [_ ?]. }
  case_bool_decide as Hc.
  - subst c. left. exists (d :: ds), (take_while is_space rest).
    destruct (take_drop_while is_space rest) as [Hws Hblank].
    split; [by rewrite <-Hws|].
    split; [done|]. split; [done|]. split; [done|].
    apply drop_while_head.
  - right. split; [done|]. intros ds' rest' Hne Hdig Heq.
    destruct (Hnum ds' rest' Hne Hdig Heq) as [_ [= ? _]]. by apply Hc.
Qed.

Lemma unnumbered_of_unique (line out : jsstring) :
  unnumbered_of line out -> out = strip_number line.
Proof.
  intros [(ds & ws & -> & Hne & Hds & Hws & Hout)|[-> Hplain]].
  - symmetry. by apply strip_number_numbered.
  - unfold strip_number.
    destruct (take_drop_while is_digit line) as [Hline Hds].
    destruct (take_while is_digit line) as [|d ds] eqn:Htw; [done|].
    destruct (drop_while is_digit line) as [|c rest] eqn:Hdw; [done|].
    case_bool_decide as Hc; [|done]. subst c.
    by destruct (Hplain (d :: ds) rest).
Qed.

Lemma split_lines_ind_strict (Q : jsstring -> list jsstring -> Prop) :
  Q [] [[]] ->
  (forall rest ls, Q rest ls -> Q (LF :: rest) ([] :: ls)) ->
  (forall rest ls, Q rest ls -> Q (CR :: LF :: rest) ([] :: ls)) ->
  (forall c rest ls,
     c ≠ LF -> ~ (c = CR /\ head rest = Some LF) ->
     Q rest ls -> Q (c :: rest) (cons_first c ls)) ->
  forall s, Q s (split_lines s).
Proof.
  intros Hnil Hlf Hcrlf Hc s.
  cut (Q s (split_lines s) /\ forall c, Q (c :: s) (split_lines (c :: s))).
  { by intros [? _]. }
  induction s as [|a s [IH1 IH2]].
  - split; [done|]. intros c. simpl. case_bool_decide as Hcl.
    + subst. by apply Hlf.
    + apply (Hc c [] [[]]); [done| |done]. by intros [_ ?].
  - split; [apply IH2|]. intros c.
    change (split_lines (c :: a :: s)) with
      (if bool_decide (c = LF) then [] :: split_lines (a :: s)
       else if bool_decide (c = CR) && bool_decide (a = LF)
            then [] :: split_lines s
            else cons_first c (split_lines (a :: s))).
    case_bool_decide as Hcl.
    + subst. by apply Hlf.
    + destruct (bool_decide (c = CR) && bool_decide (a = LF)) eqn:Hcr.
      * apply andb_true_iff in Hcr as [Hc1 Ha1].
        apply bool_decide_eq_true in Hc1, Ha1. subst. by apply Hcrlf.
      * apply Hc; [done| |done]. intros [-> [= ->]].
        by rewrite !bool_decide_eq_true_2 in Hcr.
Qed.

Lemma pieces_of_split (s : jsstring) : pieces_of s (split_lines s).
Proof.
  apply split_lines_ind_strict.
  - apply pieces_last, not_elem_of_nil.
  - intros rest ls Hrest.
    by apply (pieces_lf [] rest ls); [apply not_elem_of_nil| |].
  - intros rest ls Hrest.
    by apply (pieces_crlf [] rest ls); [apply not_elem_of_nil|].
  - intros c rest ls Hc Hcr Hrest.
    destruct Hrest as [piece Hp|piece rest pieces Hp Hlast Hrest
                      |piece rest pieces Hp Hrest]; simpl.
    + apply pieces_last. by apply not_elem_of_cons.
    + apply (pieces_lf (c :: piece) rest pieces);
        [by apply not_elem_of_cons| |done].
      destruct piece as [|p piece]; [|by rewrite last_cons_cons].
      intros [= ->]. by apply Hcr.
    + apply (pieces_crlf (c :: piece) rest pieces);
        [by apply not_elem_of_cons|done].
Qed.

Lemma split_lines_at_crlf (piece rest : jsstring) :
  LF ∉ piece ->
  split_lines (piece ++ CR :: LF :: rest) = piece :: split_lines rest.
Proof.
  induction piece as [|c piece IH]; intros Hp; [reflexivity|].
  apply not_elem_of_cons in Hp as [Hc Hp].
  change (split_lines ((c :: piece) ++ CR :: LF :: rest)) with
    (if bool_decide (c = LF)
     then [] :: split_lines (piece ++ CR :: LF :: rest)
     else match piece ++ CR :: LF :: rest with
          | d :: rest' =>
              if bool_decide (c = CR) && bool_decide (d = LF)
              then [] :: split_lines rest'
              else cons_first c (split_lines (piece ++ CR :: LF :: rest))
          | [] => [[c]]
          end).
  rewrite bool_decide_eq_false_2 by done.
  rewrite (IH Hp).
  destruct piece as [|d piece].
  - rewrite app_nil_l. cbv beta iota.
    rewrite (bool_decide_eq_false_2 (CR = LF)) by done.
    by rewrite andb_false_r.
  - rewrite <-app_comm_cons. cbv beta iota.
    apply not_elem_of_cons in Hp as [Hd _].
    rewrite (bool_decide_eq_false_2 (d = LF)) by done.
    by rewrite andb_false_r.
Qed.

Lemma pieces_of_unique (s : jsstring) (pieces : list jsstring) :
  pieces_of s pieces -> pieces = split_lines s.
Proof.
  induction 1 as [piece Hp|piece rest pieces Hp Hlast _ IH
                 |piece rest pieces Hp _ IH].
  - symmetry. by apply split_lines_single.
  - rewrite split_lines_line by done. by rewrite IH.
  - rewrite split_lines_at_crlf by done. by rewrite IH.
Qed.

(** The parser of the source computes the entries the specification
    describes, and they are the only ones. *)
Lemma entries_of_parse_list (n : nat) (content : option jsstring) :
  entries_of n content (parse_list n content).
Proof.
  exists (raw_of content), (split_lines (raw_of content)),
    (clean_line <$> split_lines (raw_of content)).
  split; [destruct content; [apply trimmed_of_trim|done]|].
  split; [apply pieces_of_split|]. split; [|done].
  apply Forall2_fmap_r, Forall_Forall2_diag, Forall_forall.
  intros piece _. exists (strip_number piece).
  split; [apply unnumbered_of_strip | apply trimmed_of_trim].
Qed.

Lemma entries_of_unique (n : nat) (content : option jsstring)
    (out : list jsstring) :
  entries_of n content out -> out = parse_list n content.
Proof.
  intros (raw & pieces & cleaned & Hraw & Hpieces & Hclean & ->).
  assert (raw = raw_of content) as ->.
  { destruct content; [by apply trimmed_of_unique|done]. }
  apply pieces_of_unique in Hpieces as ->.
  unfold parse_list. fold (raw_of content). do 2 f_equal.
  induction Hclean as [|piece c pieces cleaned (mid & Hmid & Hc) _ IH];
    [done|].
  apply unnumbered_of_unique in Hmid as ->.
  apply trimmed_of_unique in Hc as ->. by rewrite fmap_cons, IH.
Qed.



(** * The inputs of the caption pipeline *)

Lemma caption_step1_throw (e : env) (endpoint : M response) (req : request)
    (st st1 : state) (msg : jsstring) :
  truthy (VStr <$> OPENAI_API_KEY e) = true ->
  context_text e req st = (Throw msg, st1) ->
  caption e endpoint req st = (caption_failed msg, st1).
Proof.
  intros Hkey Hctx. unfold caption, handler, caption_try.
  rewrite Hkey. cbn [negb]. bind_step. by rewrite Hctx.
Qed.

Lemma caption_step1_ok (e : env) (endpoint : M response) (req : request)
    (st st1 : state) (contextText : jsstring) :
  truthy (VStr <$> OPENAI_API_KEY e) = true ->
  context_text e req st = (Ok (inr contextText), st1) ->
  status (caption e endpoint req st).1 ≠ 400%nat
  /\ (status (caption e endpoint req st).1 = 200%nat ->
      exists trendsText completion,
        chat e (str "You are a TikTok strategist who crafts viral captions.")
          (captionPrompt contextText trendsText) 300 = Ok completion
        /\ body_prop (caption e endpoint req st).1 (str "captions")
           = Some (strings (parse_captions completion))).
Proof.
  intros Hkey Hctx.
  destruct (caption e endpoint req st) as [r st'] eqn:Hr. cbn [fst].
  revert Hr. unfold caption, handler, caption_try.
  rewrite Hkey. cbn [negb]. bind_step. rewrite Hctx.
  bind_step.
  destruct (fetch_trends e endpoint st1) as [[trends|msg] st2].
  2:{ intros [= <- <-]. by split. }
  bind_step. destruct (trends_text trends) as [trendsText|msg].
  2:{ intros [= <- <-]. by split. }
  bind_step.
  destruct (chat e _ (captionPrompt _ _) _) as [completion|msg] eqn:Hc.
  2:{ intros [= <- <-]. by split. }
  bind_step.
  destruct (chat e _ (soundPrompt _ _) _) as [soundCompletion|msg].
  2:{ intros [= <- <-]. by split. }
  intros [= <- <-]. split; [done|]. intros _.
  by exists trendsText, completion.
Qed.

(** C4, as the code has it: without a credential ([OPENAI_API_KEY] unset or
    empty) [POST /api/caption] answers 500 [{ ok: false, error }] and does
    nothing else; with a credential it answers the bad request 400 exactly
    when no file was uploaded and the body has no truthy [idea]. An upload
    together with an idea is not a bad request: the upload is processed and
    the idea is not read. With an upload the answer and the state are the
    same whatever the body holds; a failure of the audio extraction or of
    the transcription of the upload is the answer 500 with its message, and
    a 200 answer is made from a prompt on the transcript. Without an upload
    a 200 answer is made from a prompt on the idea. *)
Theorem caption_input_errors (e : env) (endpoint : M response)
    (req : request) (st : state) :
  match truthy (VStr <$> OPENAI_API_KEY e), req_file req,
        truthy (req_body req !! str "idea") with
  | false, _, _ =>
      caption e endpoint req st
      = (status_json 500
           [(str "ok", Some (VBool false));
            (str "error", Some (VStr (str "OPENAI_API_KEY not set on server")))],
         st)
  | true, None, false =>
      caption e endpoint req st
      = (status_json 400
           [(str "ok", Some (VBool false));
            (str "error", Some (VStr (str
               "Provide video file (field 'video') or JSON { idea }")))],
         st)
  | true, None, true =>
      status (caption e endpoint req st).1 ≠ 400%nat
      /\ (status (caption e endpoint req st).1 = 200%nat ->
          exists idea trendsText completion,
            req_body req !! str "idea" = Some idea
            /\ chat e
                 (str "You are a TikTok strategist who crafts viral captions.")
                 (captionPrompt (to_string idea) trendsText) 300
               = Ok completion
            /\ body_prop (caption e endpoint req st).1 (str "captions")
               = Some (strings (parse_captions completion)))
  | true, Some videoPath, _ =>
      status (caption e endpoint req st).1 ≠ 400%nat
      /\ (forall b,
            caption e endpoint (with_body b req) st
            = caption e endpoint req st)
      /\ match ffmpeg e videoPath with
         | FfError msg _ => (caption e endpoint req st).1 = caption_failed msg
         | FfEnd =>
             match whisper e (videoPath ++ str ".mp3") with
             | Throw msg =>
                 (caption e endpoint req st).1 = caption_failed msg
             | Ok text =>
                 status (caption e endpoint req st).1 = 200%nat ->
                 exists trendsText completion,
                   chat e
                     (str "You are a TikTok strategist who crafts viral captions.")
                     (captionPrompt (default [] text) trendsText) 300
                   = Ok completion
                   /\ body_prop (caption e endpoint req st).1 (str "captions")
                      = Some (strings (parse_captions completion))
             end
         end
  end.
Proof.
  destruct (truthy (VStr <$> OPENAI_API_KEY e)) eqn:Hkey.
  2:{ unfold caption, handler, caption_try. rewrite Hkey. reflexivity. }
  destruct (req_file req) as [videoPath|] eqn:Hfile.
  - assert (forall b, context_text e (with_body b req) = context_text e req)
      as Hbody.
    { intros b. unfold context_text, with_body. cbn [req_file].
      by rewrite Hfile. }
    split; [intros (_ & Hnone & _)%caption_400; congruence|].
    split.
    { intros b. unfold caption, caption_try. by rewrite Hbody. }
    destruct (ffmpeg e videoPath) as [|msg partial] eqn:Hff.
    + destruct (whisper e (videoPath ++ str ".mp3")) as [text|msg] eqn:Hwh.
      * destruct (upload_removed_on_success e req st videoPath text
                    Hfile Hff Hwh) as (st1 & Hctx & _).
        by destruct (caption_step1_ok e endpoint req st st1 _ Hkey Hctx).
      * assert (exists st1, context_text e req st = (Throw msg, st1))
          as [st1 Hctx].
        { unfold context_text. rewrite Hfile.
          cbv [mbind M_bind mret M_ret lift extract_audio].
          rewrite Hff, Hwh. by eexists. }
        by rewrite (caption_step1_throw e endpoint req st st1 msg).
    + assert (exists st1, context_text e req st = (Throw msg, st1))
        as [st1 Hctx].
      { unfold context_text. rewrite Hfile.
        cbv [mbind M_bind mret M_ret lift extract_audio].
        rewrite Hff. by eexists. }
      by rewrite (caption_step1_throw e endpoint req st st1 msg).
  - destruct (truthy (req_body req !! str "idea")) eqn:Hidea.
    + destruct (truthy_Some _ Hidea) as [idea Hsome].
      assert (context_text e req st = (Ok (inr (to_string idea)), st))
        as Hctx.
      { unfold context_text. rewrite Hfile, Hidea, Hsome.
        unfold or_default. by rewrite <-Hsome, Hidea. }
      destruct (caption_step1_ok e endpoint req st st _ Hkey Hctx)
        as [H400 H200].
      split; [done|]. intros (trendsText & completion & Hc & Hb)%H200.
      by exists idea, trendsText, completion.
    + unfold caption, handler, caption_try, context_text.
      rewrite Hkey, Hfile, Hidea. reflexivity.
Qed.

(** * The reach of the rate limiter *)

(** The first layers on a client over the limit. *)
Lemma serve_limited (e : env) (req : request) (st : state) :
  rate_limited e = true ->
  serve e req st
  = if bool_decide (req_method req = OPTIONS) then
      ({| status := 204; body := Empty |}, st)
    else if bool_decide (req_method req = GET)
            && bool_decide (mounted (str "/api") (req_path req)
                            = Some (str "/trends"))
    then (router_trends e, st)
    else ({| status := 429;
             body := Text (str "Too many requests, please try again later.") |},
          st).
Proof.
  intros Hlim. unfold serve, app. rewrite dispatch_app.
  unfold front. rewrite !dispatch_cons.
  unfold cors at 1. case_bool_decide as Hopt; [done|].
  unfold express_json at 1. unfold pass at 1.
  unfold trendsRouter at 1. unfold express_urlencoded at 1. unfold pass at 1.
  unfold rateLimit at 1. rewrite Hlim.
  destruct (mounted (str "/api") (req_path req)) as [inner|] eqn:Hm.
  - destruct (bool_decide (req_method req = GET)); cbn [andb]; [|done].
    case_bool_decide as Hin.
    + subst inner. by rewrite bool_decide_eq_true_2.
    + rewrite bool_decide_eq_false_2; [done|]. congruence.
  - rewrite andb_false_r. done.
Qed.

Lemma strip_prefix_app (p q s r : jsstring) :
  strip_prefix (p ++ q) s = Some r ->
  exists r', strip_prefix p s = Some r' /\ strip_prefix q r' = Some r.
Proof.
  revert s. induction p as [|a p IH]; intros s; simpl.
  - intros Hq. exists s. split; [by destruct s | done].
  - destruct s as [|c s]; [done|]. case_bool_decide; [|done]. apply IH.
Qed.

Lemma param_not_trends (path id : jsstring) :
  param (str "/api/drafts/") path = Some id ->
  mounted (str "/api") path ≠ Some (str "/trends").
Proof.
  unfold param, mounted.
  destruct (strip_prefix (str "/api/drafts/") path) as [rest|] eqn:Hp;
    [|done].
  intros _.
  apply (strip_prefix_app (str "/api") (str "/drafts/")) in Hp
    as (inner & -> & Hinner).
  destruct inner as [|c inner]; [done|].
  case_bool_decide; [|done]. intros [= -> ->].
  vm_compute in Hinner. discriminate Hinner.
Qed.

(** The rate limiter is registered behind [cors] and the router of
    trends.js and before every route of server.js: for a client over the
    limit, the requests for the caption route, the drafts routes and the
    OAuth page are answered 429 and the state is not touched; a preflight
    request is answered 204 by [cors] and [GET /api/trends] by the router,
    which the limiter never sees. *)
Theorem rate_limit_scope (e : env) (req : request) (st : state) :
  rate_limited e = true ->
  (req_method req = OPTIONS ->
   serve e req st = ({| status := 204; body := Empty |}, st))
  /\ (server_route req ->
      serve e req st
      = ({| status := 429;
            body := Text (str "Too many requests, please try again later.") |},
         st))
  /\ serve e get_trends st = (router_trends e, st).
Proof.
  intros Hlim. split; [|split].
  - intros Hopt. rewrite serve_limited by done.
    by rewrite bool_decide_eq_true_2.
  - intros Hroute. rewrite serve_limited by done.
    destruct Hroute as [Hin|[Hm [id Hid]]].
    + destruct req as [m p f b]. cbn [req_method req_path] in *.
      repeat (apply elem_of_cons in Hin as [[= -> ->]|Hin]; [reflexivity|]).
      by apply elem_of_nil in Hin.
    + apply param_not_trends in Hid.
      rewrite (bool_decide_eq_false_2 (mounted _ _ = _)) by done.
      rewrite andb_false_r.
      apply elem_of_cons in Hm as [->|Hm]; [done|].
      apply elem_of_cons in Hm as [->|Hm]; [done|].
      by apply elem_of_nil in Hm.
  - reflexivity.
Qed.

Lemma rate_limit_scope_witness :
  status (serve env_limited post_draft st0).1 = 429%nat
  /\ (serve env_limited post_draft st0).2 = st0
  /\ status (serve env_limited get_trends st0).1 = 500%nat.
Proof.
  destruct (rate_limit_scope env_limited post_draft st0 eq_refl)
    as (_ & Hp & Hg).
  rewrite Hp, Hg.
  - vm_compute. repeat split; reflexivity.
  - left. vm_compute. set_solver.
Defined.
